(** * Tornado likelihood heuristic (Joplin_tornados.py): model and properties

    The development embeds the computations of [Joplin_tornados.py]:
    [safe_get], [summarize_hourly], [classify_tornado_alerts], the work of
    [get_spc_categorical] and [get_spc_prob_tornado] on the decoded response
    of their query, [score_likelihood], and the loop of [main] that keeps
    the periods of the next 24 hours.  The requests themselves are not
    modelled: each function starts from the decoded JSON that its request
    returned.

    Conventions.
    - Python [int] is [Z].
    - Python [float] is IEEE 754 binary64, see [Module Float].
    - Python [str] is [string]; text is read as ASCII, and case mapping and
      character classes are those of Python on the ASCII range.
    - A raised exception is an explicit outcome, see [result].
    - A [dict] is the list of its items in insertion order; its keys are
      distinct. *)

From Stdlib Require Import ZArith Lia List String Ascii Bool DecimalString Permutation.
From Stdlib Require SpecFloat.
Import ListNotations.
Local Open Scope Z_scope.

(** ** Exceptions *)

Inductive exn : Type :=
| OverflowError
| ValueError
| TypeError
| AttributeError
| KeyError
| IndexError
| RuntimeError.

Inductive result (A : Type) : Type :=
| OK (a : A)
| Raise (e : exn).
Arguments OK {A} a.
Arguments Raise {A} e.

Definition bind {A B : Type} (c : result A) (k : A -> result B) : result B :=
  match c with
  | OK a => k a
  | Raise e => Raise e
  end.

Notation "x <- c ;; k" := (bind c (fun x => k))
  (at level 61, c at next level, right associativity).

(** ** Binary64 floating point

    Every finite binary64 number is an integer multiple of [2^-1074], the
    smallest subnormal.  A finite float is stored as that integer: [Fin n]
    denotes [n * 2^-1074].  The two zeros are not told apart: no comparison
    or conversion of the program can observe the sign of a zero.

    Each operation returns the exact result rounded to the nearest
    representable number, ties to the even significand, and overflows to
    an infinity, which is the IEEE 754 definition of the operation. *)

Module Float.

Inductive float : Type :=
| NaN
| Inf (neg : bool)
| Fin (n : Z).

(** Units per [1.0]. *)
Definition U : Z := 2 ^ 1074.

(** First magnitude, in units, that is out of range: [2^1024]. *)
Definition HUGE : Z := 2 ^ 2098.

(** Nearest integer to [a / b] for [0 < b], ties to even. *)
Definition rhe (a b : Z) : Z :=
  let q := a / b in
  let r := a mod b in
  match 2 * r ?= b with
  | Lt => q
  | Gt => q + 1
  | Eq => if Z.even q then q else q + 1
  end.

(** Bit length of a non-negative integer. *)
Definition digits (n : Z) : Z :=
  if n =? 0 then 0 else Z.log2 n + 1.

(** Number of low bits that a value of integer part [n] loses when it is
    stored with a 53 bit significand. *)
Definition shift_of (n : Z) : Z := Z.max 0 (digits n - 53).

(** [a / b] units, rounded to a multiple of [2^k] units where [k] is the
    shift of its binade. *)
Definition round_units (a b : Z) : Z :=
  let k := shift_of (Z.abs a / b) in
  rhe a (b * 2 ^ k) * 2 ^ k.

Definition of_units (n : Z) : float :=
  if HUGE <=? Z.abs n then Inf (n <? 0) else Fin n.

Definition round (a b : Z) : float := of_units (round_units a b).

(** The float nearest to the integer [z], without the range check. *)
Definition of_Z (z : Z) : float := round (z * U) 1.

(** The float nearest to the decimal literal [a / b]. *)
Definition literal (a b : Z) : float := round (a * U) b.

Definition add (x y : float) : float :=
  match x, y with
  | NaN, _ | _, NaN => NaN
  | Inf sx, Inf sy => if Bool.eqb sx sy then x else NaN
  | Inf _, Fin _ => x
  | Fin _, Inf _ => y
  | Fin a, Fin b => round (a + b) 1
  end.

Definition mul (x y : float) : float :=
  match x, y with
  | NaN, _ | _, NaN => NaN
  | Inf sx, Inf sy => Inf (xorb sx sy)
  | Inf sx, Fin b => if b =? 0 then NaN else Inf (xorb sx (b <? 0))
  | Fin a, Inf sy => if a =? 0 then NaN else Inf (xorb (a <? 0) sy)
  | Fin a, Fin b => round (a * b) U
  end.

(** [x < y]; false as soon as one side is a NaN. *)
Definition ltb (x y : float) : bool :=
  match x, y with
  | NaN, _ | _, NaN => false
  | Inf sx, Inf sy => sx && negb sy
  | Inf sx, Fin _ => sx
  | Fin _, Inf sy => negb sy
  | Fin a, Fin b => a <? b
  end.

Definition gtb (x y : float) : bool := ltb y x.

End Float.

Import Float.

(** ** Python numeric built-ins on floats *)

(** Implicit [int] to [float] conversion of mixed arithmetic, and [float(z)]:
    correctly rounded, [OverflowError] when the result is out of range. *)
Definition float_of_int (z : Z) : result float :=
  match of_Z z with
  | Fin n => OK (Fin n)
  | _ => Raise OverflowError
  end.

(** [int(x)] on a float: truncation toward zero. *)
Definition int_of_float (x : float) : result Z :=
  match x with
  | NaN => Raise ValueError
  | Inf _ => Raise OverflowError
  | Fin n => OK (Z.quot n U)
  end.

(** [max(a, b)] returns [b] when [b > a] and [a] otherwise; [min(a, b)]
    returns [b] when [b < a] and [a] otherwise. *)
Definition py_max (a b : float) : float := if gtb b a then b else a.
Definition py_min (a b : float) : float := if ltb b a then b else a.

(** [round(x, 1)]: the decimal with one fractional digit nearest to the exact
    value of [x] (ties to the even digit), converted back to the nearest
    float.  Infinities and NaN are returned unchanged. *)
Definition py_round1 (x : float) : result float :=
  match x with
  | Fin n =>
      match round (rhe (10 * n) U * U) 10 with
      | Fin r => OK (Fin r)
      | _ => Raise OverflowError
      end
  | _ => OK x
  end.

(** ** Step 5: the score *)

Record AlertFlags : Type := {
  has_watch : bool;
  has_warning : bool;
  has_pds : bool
}.

Record HourlySummary : Type := {
  thunder_hours : Z;
  max_pop : Z;
  max_gust_mph : Z
}.

Record Components : Type := {
  spc_categorical : option string;
  spc_prob_tornado_pct : option Z;
  alerts : AlertFlags;
  hourly_summary : HourlySummary
}.

Record ScoreResult : Type := {
  score_0_100 : float;
  components : Components
}.

Definition key_eqb (a b : option string) : bool :=
  match a, b with
  | None, None => true
  | Some x, Some y => String.eqb x y
  | _, _ => false
  end.

(** [d.get(k, default)] on a dictionary with keys [None] or strings. *)
Fixpoint dict_get {V : Type} (d : list (option string * V)) (k : option string)
  (default : V) : V :=
  match d with
  | [] => default
  | (k', v) :: d' => if key_eqb k' k then v else dict_get d' k default
  end.

Definition CAT_WEIGHTS : list (option string * Z) :=
  [ (None, 0);
    (Some "TSTM"%string, 5);
    (Some "MRGL"%string, 15);
    (Some "SLGT"%string, 25);
    (Some "ENH"%string, 40);
    (Some "MDT"%string, 60);
    (Some "HIGH"%string, 80) ].

(** The float literals of [score_likelihood]. *)
Definition c1_2 : float := literal 12 10.
Definition c2_0 : float := literal 2 1.
Definition c0_2 : float := literal 2 10.
Definition c70 : float := literal 70 1.
Definition c90 : float := literal 90 1.
Definition c98 : float := literal 98 1.
Definition c0 : float := literal 0 1.
Definition c100 : float := literal 100 1.

(** [score] starts as the integer weight and becomes a float at the first
    [+=] with a float operand; that conversion of the weight is done here
    at once.  The alert and summary dictionaries are the ones built by
    [classify_tornado_alerts] and [summarize_hourly]: every key is present
    and the summary values are integers, on which [int] is the identity. *)
Definition score_likelihood (spc_cat : option string) (spc_prob_tor : option Z)
  (alerts : AlertFlags) (hourly_summary : HourlySummary) : result ScoreResult :=
  let thunder_hours := Z.min (thunder_hours hourly_summary) 10 in
  let max_pop := max_pop hourly_summary in
  let max_gust := max_gust_mph hourly_summary in
  score <- float_of_int (dict_get CAT_WEIGHTS spc_cat 0) ;;
  score <- match spc_prob_tor with
           | Some p => x <- float_of_int p ;; OK (add score (mul c1_2 x))
           | None => OK score
           end ;;
  t <- float_of_int thunder_hours ;;
  let score := add score (mul c2_0 t) in
  score <- (if 35 <? max_gust
            then g <- float_of_int (Z.min (max_gust - 35) 30) ;; OK (add score g)
            else OK score) ;;
  p <- float_of_int max_pop ;;
  let score := add score (mul c0_2 p) in
  let score := if has_watch alerts then py_max score c70 else score in
  let score := if has_warning alerts then py_max score c90 else score in
  let score := if has_pds alerts then py_max score c98 else score in
  let score := py_max c0 (py_min c100 score) in
  r <- py_round1 score ;;
  OK {| score_0_100 := r;
        components := {| spc_categorical := spc_cat;
                         spc_prob_tornado_pct := spc_prob_tor;
                         alerts := alerts;
                         hourly_summary := hourly_summary |} |}.

Definition score_of (r : result ScoreResult) : result float :=
  x <- r ;; OK (score_0_100 x).

(** ** Text *)

Local Open Scope string_scope.
Local Open Scope Z_scope.

Definition code (c : ascii) : Z := Z.of_N (N_of_ascii c).

Definition is_digit (c : ascii) : bool := (48 <=? code c) && (code c <=? 57).
Definition is_upper (c : ascii) : bool := (65 <=? code c) && (code c <=? 90).
Definition is_lower (c : ascii) : bool := (97 <=? code c) && (code c <=? 122).

(** [\s] of [re] on text: the characters for which [str.isspace] holds. *)
Definition is_space (c : ascii) : bool :=
  ((9 <=? code c) && (code c <=? 13)) || ((28 <=? code c) && (code c <=? 32)).

(** The white space that [int] strips from ASCII text. *)
Definition is_int_space (c : ascii) : bool :=
  ((9 <=? code c) && (code c <=? 13)) || (code c =? 32).

Definition lower_char (c : ascii) : ascii :=
  if is_upper c then ascii_of_N (N_of_ascii c + 32) else c.

Definition upper_char (c : ascii) : ascii :=
  if is_lower c then ascii_of_N (N_of_ascii c - 32) else c.

Fixpoint str_map (f : ascii -> ascii) (s : string) : string :=
  match s with
  | EmptyString => EmptyString
  | String c s' => String (f c) (str_map f s')
  end.

(** [s.lower()] and [s.upper()]. *)
Definition lower (s : string) : string := str_map lower_char s.
Definition upper (s : string) : string := str_map upper_char s.

(** [s.replace(c, "")] for a one character [c]. *)
Fixpoint remove_char (c : ascii) (s : string) : string :=
  match s with
  | EmptyString => EmptyString
  | String a s' => if Ascii.eqb a c then remove_char c s' else String a (remove_char c s')
  end.

Fixpoint starts_with (p s : string) : bool :=
  match p, s with
  | EmptyString, _ => true
  | String a p', String b s' => Ascii.eqb a b && starts_with p' s'
  | String _ _, EmptyString => false
  end.

(** [needle in hay]. *)
Fixpoint contains (needle hay : string) : bool :=
  starts_with needle hay ||
  match hay with
  | EmptyString => false
  | String _ hay' => contains needle hay'
  end.

Fixpoint take (n : nat) (s : string) : string :=
  match n, s with
  | S n', String c s' => String c (take n' s')
  | _, _ => EmptyString
  end.

(** ** Regular expressions

    The fragment of [re] that the program uses, with the semantics of a
    backtracking matcher: alternatives are tried left to right, a star is
    greedy, and [search] returns the match that starts leftmost. *)

Inductive regex : Type :=
| Eps
| Chr (p : ascii -> bool)
| Seq (r1 r2 : regex)
| Alt (r1 r2 : regex)
| Star (r : regex)
| Group (r : regex).

(** The iterations of a greedy star whose body is matched by [m]: one more
    iteration is tried first, then the continuation [k].  An iteration that
    consumes nothing is refused; [fuel] bounds the number of iterations. *)
Fixpoint star_loop {A : Type}
  (m : string -> option string -> (string -> option string -> option A) -> option A)
  (k : string -> option string -> option A)
  (fuel : nat) (s : string) (g : option string) : option A :=
  match fuel with
  | O => k s g
  | S fuel' =>
      match m s g (fun s' g' => if (String.length s' <? String.length s)%nat
                                then star_loop m k fuel' s' g' else None) with
      | Some x => Some x
      | None => k s g
      end
  end.

(** [rmatch r s g k] matches [r] at the start of [s]; [g] is the text of
    group 1 so far and [k] continues on the rest of the input. *)
Fixpoint rmatch {A : Type} (r : regex) (s : string) (g : option string)
  (k : string -> option string -> option A) {struct r} : option A :=
  match r with
  | Eps => k s g
  | Chr p =>
      match s with
      | String c s' => if p c then k s' g else None
      | EmptyString => None
      end
  | Seq r1 r2 => rmatch r1 s g (fun s' g' => rmatch r2 s' g' k)
  | Alt r1 r2 =>
      match rmatch r1 s g k with
      | Some x => Some x
      | None => rmatch r2 s g k
      end
  | Star r1 => star_loop (rmatch r1) k (S (String.length s)) s g
  | Group r1 =>
      rmatch r1 s g
        (fun s' _ => k s' (Some (take (String.length s - String.length s') s)))
  end.

(** [re.search(r, s)]: [None] when nothing matches, else the text of group 1
    of the leftmost match ([None] inside when the group took no part). *)
Fixpoint re_search (r : regex) (s : string) : option (option string) :=
  match rmatch r s None (fun _ g => Some g) with
  | Some g => Some g
  | None =>
      match s with
      | EmptyString => None
      | String _ s' => re_search r s'
      end
  end.

(** A literal under [re.I]. *)
Fixpoint lit_ci (w : string) : regex :=
  match w with
  | EmptyString => Eps
  | String a w' => Seq (Chr (fun c => Ascii.eqb (lower_char c) (lower_char a))) (lit_ci w')
  end.

Definition plus (r : regex) : regex := Seq r (Star r).

(** [(thunder|t-storm|storm)] with [re.I]. *)
Definition thunder_re : regex :=
  Group (Alt (lit_ci "thunder") (Alt (lit_ci "t-storm") (lit_ci "storm"))).

(** [(\d+)]. *)
Definition digits_re : regex := Group (plus (Chr is_digit)).

(** [(\d+)\s*%]. *)
Definition pct_re : regex :=
  Seq (Group (plus (Chr is_digit))) (Seq (Star (Chr is_space)) (Chr (Ascii.eqb "%"))).

(** ** [int] of text *)

(** Default of [sys.get_int_max_str_digits()]: longer digit strings are
    refused with [ValueError]. *)
Definition INT_MAX_STR_DIGITS : Z := 4300.

Definition digit_val (c : ascii) : Z := code c - 48.

Fixpoint lstrip (s : string) : string :=
  match s with
  | String c s' => if is_int_space c then lstrip s' else s
  | EmptyString => EmptyString
  end.

Fixpoint rev_onto (s acc : string) : string :=
  match s with
  | EmptyString => acc
  | String c s' => rev_onto s' (String c acc)
  end.

Definition strip (s : string) : string :=
  rev_onto (lstrip (rev_onto (lstrip s) EmptyString)) EmptyString.

(** The digits after a first digit, with single underscores between digits;
    [acc] is the value and [n] the number of digits read so far. *)
Fixpoint int_digits (s : string) (acc n : Z) : option (Z * Z) :=
  match s with
  | EmptyString => Some (acc, n)
  | String c s' =>
      if is_digit c then int_digits s' (10 * acc + digit_val c) (n + 1)
      else if Ascii.eqb c "_" then
        match s' with
        | String d s'' =>
            if is_digit d then int_digits s'' (10 * acc + digit_val d) (n + 1)
            else None
        | EmptyString => None
        end
      else None
  end.

Definition int_body (s : string) : option Z :=
  match s with
  | String d s' =>
      if is_digit d then
        match int_digits s' (digit_val d) 1 with
        | Some (v, n) => if n <=? INT_MAX_STR_DIGITS then Some v else None
        | None => None
        end
      else None
  | EmptyString => None
  end.

(** [int(s)] for text [s], base 10. *)
Definition int_of_str (s : string) : result Z :=
  let t := strip s in
  let r :=
    match t with
    | String c t' =>
        if Ascii.eqb c "-" then option_map Z.opp (int_body t')
        else if Ascii.eqb c "+" then int_body t'
        else int_body t
    | EmptyString => None
    end in
  match r with
  | Some z => OK z
  | None => Raise ValueError
  end.

(** ** Decoded JSON values *)

#[warnings="-register-all"]
Inductive pyval : Type :=
| PNone
| PBool (b : bool)
| PInt (z : Z)
| PFloat (x : float)
| PStr (s : string)
| PList (l : list pyval)
| PDict (d : list (string * pyval)).

(** A [dict] with text keys, in insertion order. *)
Definition dict : Type := list (string * pyval).

Fixpoint lookup (d : dict) (k : string) : option pyval :=
  match d with
  | [] => None
  | (k', v) :: d' => if String.eqb k' k then Some v else lookup d' k
  end.

(** [d.get(k, default)]. *)
Definition get (d : dict) (k : string) (default : pyval) : pyval :=
  match lookup d k with
  | Some v => v
  | None => default
  end.

(** [d.values()]. *)
Definition values (d : dict) : list pyval := map snd d.

(** Truth value of an object. *)
Definition truthy (v : pyval) : bool :=
  match v with
  | PNone => false
  | PBool b => b
  | PInt z => negb (z =? 0)
  | PFloat (Fin n) => negb (n =? 0)
  | PFloat _ => true
  | PStr s => negb (String.eqb s "")
  | PList l => match l with [] => false | _ => true end
  | PDict d => match d with [] => false | _ => true end
  end.

(** [a or b]. *)
Definition py_or (a b : pyval) : pyval := if truthy a then a else b.

(** [int(v)]. *)
Definition py_int (v : pyval) : result Z :=
  match v with
  | PBool b => OK (if b then 1 else 0)
  | PInt z => OK z
  | PFloat x => int_of_float x
  | PStr s => int_of_str s
  | _ => Raise TypeError
  end.

(** [float(v)] for the numbers that [isinstance(v, (int, float))] accepts. *)
Definition py_float (v : pyval) : result float :=
  match v with
  | PBool b => float_of_int (if b then 1 else 0)
  | PInt z => float_of_int z
  | PFloat x => OK x
  | _ => Raise TypeError
  end.

(** [safe_get(d, *keys, default=default)]. *)
Fixpoint safe_get (cur : pyval) (keys : list string) (default : pyval) : pyval :=
  match keys with
  | [] => cur
  | k :: keys' =>
      match cur with
      | PDict d =>
          match lookup d k with
          | Some v => safe_get v keys' default
          | None => default
          end
      | _ => default
      end
  end.

(** ** Step 2: hourly forecast *)

(** [for x in xs: acc = step(acc, x)], stopped by the first exception. *)
Fixpoint for_each {A B : Type} (step : B -> A -> result B) (xs : list A) (acc : B)
  : result B :=
  match xs with
  | [] => OK acc
  | x :: xs' => acc' <- step acc x ;; for_each step xs' acc'
  end.

(** [pattern.search(v)]: a [TypeError] unless [v] is text. *)
Definition search_val (r : regex) (v : pyval) : result (option (option string)) :=
  match v with
  | PStr s => OK (re_search r s)
  | _ => Raise TypeError
  end.

(** [m.group(1)] passed to [int]. *)
Definition int_of_group (g : option string) : result Z :=
  match g with
  | Some s => int_of_str s
  | None => Raise TypeError
  end.

(** One pass of the loop body of [summarize_hourly]. *)
Definition summarize_period (acc : HourlySummary) (p : dict) : result HourlySummary :=
  let sf := py_or (get p "shortForecast" (PStr "")) (PStr "") in
  m <- search_val thunder_re sf ;;
  let thunder_hours :=
    match m with
    | Some _ => thunder_hours acc + 1
    | None => thunder_hours acc
    end in
  let pop :=
    py_or (safe_get (PDict p) ["probabilityOfPrecipitation"; "value"] (PInt 0))
          (PInt 0) in
  let pop :=
    match py_int pop with
    | OK z => Z.max 0 (Z.min 100 z)
    | Raise _ => 0
    end in
  let max_pop := Z.max (max_pop acc) pop in
  let gust := get p "windGust" PNone in
  gust_mph <-
    match gust with
    | PStr s =>
        match re_search digits_re s with
        | Some g => z <- int_of_group g ;; OK (PInt z)
        | None => OK (PInt 0)
        end
    | PBool _ | PInt _ | PFloat _ => x <- py_float gust ;; OK (PFloat x)
    | _ => OK (PInt 0)
    end ;;
  g <- py_int gust_mph ;;
  OK {| thunder_hours := thunder_hours;
        max_pop := max_pop;
        max_gust_mph := Z.max (max_gust_mph acc) g |}.

Definition summarize_hourly (periods_24h : list dict) : result HourlySummary :=
  for_each summarize_period periods_24h
    {| thunder_hours := 0; max_pop := 0; max_gust_mph := 0 |}.

(** ** Step 3: active alerts *)

Section Rendering.

(** [str] of a float, a list or a dictionary.  No property of this
    rendering is used. *)
Variable str_other : pyval -> string.

(** [str(v)], also the rendering of [v] in an f-string. *)
Definition py_str (v : pyval) : string :=
  match v with
  | PNone => "None"
  | PBool true => "True"
  | PBool false => "False"
  | PInt z => NilZero.string_of_int (Z.to_int z)
  | PStr s => s
  | _ => str_other v
  end.

(** The lowercased text of one alert. *)
Definition alert_text (f : pyval) : string :=
  let event := py_or (safe_get f ["properties"; "event"] (PStr "")) (PStr "") in
  let headline := py_or (safe_get f ["properties"; "headline"] (PStr "")) (PStr "") in
  let desc := py_or (safe_get f ["properties"; "description"] (PStr "")) (PStr "") in
  lower (py_str event ++ " " ++ py_str headline ++ " " ++ py_str desc).

(** One pass of the loop body of [classify_tornado_alerts]. *)
Definition classify_alert (acc : AlertFlags) (f : pyval) : AlertFlags :=
  let txt := alert_text f in
  let has_warning := if contains "tornado warning" txt then true else has_warning acc in
  let has_watch := if contains "tornado watch" txt then true else has_watch acc in
  let has_pds :=
    if contains "particularly dangerous situation" txt || contains "pds" txt
    then true else has_pds acc in
  {| has_watch := has_watch; has_warning := has_warning; has_pds := has_pds |}.

Definition classify_tornado_alerts (features : list pyval) : AlertFlags :=
  fold_left classify_alert features
    {| has_watch := false; has_warning := false; has_pds := false |}.

(** ** Step 4: SPC outlooks *)

(** [v[0]]. *)
Definition item0 (v : pyval) : result pyval :=
  match v with
  | PList (x :: _) => OK x
  | PList [] => Raise IndexError
  | PStr (String c _) => OK (PStr (String c EmptyString))
  | PStr EmptyString => Raise IndexError
  | PDict _ => Raise KeyError
  | _ => Raise TypeError
  end.

(** [v.get(k, default)]: only a dictionary has the method. *)
Definition get_method (v : pyval) (k : string) (default : pyval) : result pyval :=
  match v with
  | PDict d => OK (get d k default)
  | _ => Raise AttributeError
  end.

(** [props.get(k1) or props.get(k2) or ... or ""] for the keys [k1, k2, ...]. *)
Fixpoint first_truthy (props : dict) (keys : list string) : pyval :=
  match keys with
  | [] => PStr ""
  | k :: keys' => py_or (get props k PNone) (first_truthy props keys')
  end.

(** The first vocabulary entry that occurs in [label]. *)
Fixpoint first_in (vs : list string) (label : string) : option string :=
  match vs with
  | [] => None
  | v :: vs' => if contains v label then Some v else first_in vs' label
  end.

(** [get_spc_categorical] from the decoded response [data] of its query. *)
Definition get_spc_categorical (data : dict) : result (option string) :=
  let feats := get data "features" (PList []) in
  if negb (truthy feats) then OK None
  else
    f0 <- item0 feats ;;
    props <- get_method f0 "properties" (PDict []) ;;
    match props with
    | PDict props =>
        match first_truthy props ["LABEL"; "LABEL2"; "Type"; "label"] with
        | PStr label =>
            let label := remove_char " " (upper label) in
            if contains "TSTM" label then OK (Some "TSTM")
            else OK (first_in ["MRGL"; "SLGT"; "ENH"; "MDT"; "HIGH"] label)
        | _ => Raise AttributeError
        end
    | _ => Raise AttributeError
    end.

(** [re.search(r"(\d+)\s*%", str(v))] and, on a match, [int(m.group(1))]. *)
Definition pct_of (v : pyval) : option (result Z) :=
  match re_search pct_re (py_str v) with
  | Some g => Some (int_of_group g)
  | None => None
  end.

(** The loop over [props.values()]: the first value with a match decides. *)
Fixpoint scan_values (vs : list pyval) : result (option Z) :=
  match vs with
  | [] => OK None
  | v :: vs' =>
      match pct_of v with
      | Some r => z <- r ;; OK (Some z)
      | None => scan_values vs'
      end
  end.

(** [get_spc_prob_tornado] from the decoded response [data] of its query. *)
Definition get_spc_prob_tornado (data : dict) : result (option Z) :=
  let feats := get data "features" (PList []) in
  if negb (truthy feats) then OK None
  else
    f0 <- item0 feats ;;
    props <- get_method f0 "properties" (PDict []) ;;
    match props with
    | PDict props =>
        let label := first_truthy props ["LABEL"; "label"] in
        match pct_of label with
        | Some r => z <- r ;; OK (Some z)
        | None => scan_values (values props)
        end
    | _ => Raise AttributeError
    end.

(** What one alert contributes to each flag. *)
Definition warns (f : pyval) : bool := contains "tornado warning" (alert_text f).
Definition watches (f : pyval) : bool := contains "tornado watch" (alert_text f).
Definition is_pds (f : pyval) : bool :=
  contains "particularly dangerous situation" (alert_text f) || contains "pds" (alert_text f).

End Rendering.

(** ** Notions used in the statements *)

(** The integers that convert to a float: below [2^1024 - 2^970] in
    magnitude. *)
Definition in_float_range (z : Z) : Prop := Z.abs z < 2 ^ 1024 - 2 ^ 970.

(** [x] is a finite float with [lo <= x <= hi], for integers [lo] and [hi]. *)
Definition between (lo hi : Z) (x : float) : Prop :=
  exists n, x = Fin n /\ lo * U <= n <= hi * U.

(** Order of floats in which [NaN] sits with [+inf] at the top: both are
    clipped to [100.0] by [score_likelihood]. *)
Definition fle (x y : float) : Prop :=
  match x, y with
  | _, NaN => True
  | _, Inf false => True
  | Inf true, _ => True
  | Fin a, Fin b => a <= b
  | _, _ => False
  end.

(** Ordinary order of two finite floats. *)
Definition float_le (x y : float) : Prop :=
  exists a b, x = Fin a /\ y = Fin b /\ a <= b.

(** The integer inputs of [score_likelihood] that are converted to floats. *)
Definition inputs_in_range (spc_prob_tor : option Z) (hs : HourlySummary) : Prop :=
  match spc_prob_tor with
  | Some p => in_float_range p
  | None => True
  end /\
  in_float_range (Z.min (thunder_hours hs) 10) /\
  in_float_range (max_pop hs).

(** Rank of a categorical label in
    [none < TSTM < MRGL < SLGT < ENH < MDT < HIGH]. *)
Definition tier (spc_cat : option string) : option nat :=
  match spc_cat with
  | None => Some 0%nat
  | Some s =>
      if String.eqb s "TSTM" then Some 1%nat
      else if String.eqb s "MRGL" then Some 2%nat
      else if String.eqb s "SLGT" then Some 3%nat
      else if String.eqb s "ENH" then Some 4%nat
      else if String.eqb s "MDT" then Some 5%nat
      else if String.eqb s "HIGH" then Some 6%nat
      else None
  end.

Definition tier_le (c c' : option string) : Prop :=
  exists i j, tier c = Some i /\ tier c' = Some j /\ (i <= j)%nat.

(** Order of non-negative percentages, with absent below every present one. *)
Definition prob_le (p p' : option Z) : Prop :=
  match p, p' with
  | None, None => True
  | None, Some b => 0 <= b
  | Some a, Some b => 0 <= a <= b
  | Some _, None => False
  end.

(** The same order without the sign condition on two present values. *)
Definition prob_rel (p p' : option Z) : Prop :=
  match p, p' with
  | None, None => True
  | None, Some b => 0 <= b
  | Some a, Some b => a <= b
  | Some _, None => False
  end.

(** The score before the alert floors, from the weight [w]. *)
Definition raw_score (w : Z) (spc_prob_tor : option Z) (hs : HourlySummary)
  : result float :=
  score <- float_of_int w ;;
  score <- match spc_prob_tor with
           | Some p => x <- float_of_int p ;; OK (add score (mul c1_2 x))
           | None => OK score
           end ;;
  t <- float_of_int (Z.min (thunder_hours hs) 10) ;;
  let score := add score (mul c2_0 t) in
  score <- (if 35 <? max_gust_mph hs
            then g <- float_of_int (Z.min (max_gust_mph hs - 35) 30) ;; OK (add score g)
            else OK score) ;;
  p <- float_of_int (max_pop hs) ;;
  OK (add score (mul c0_2 p)).

(** The alert floors, the clipping and the rounding. *)
Definition finish (alerts : AlertFlags) (score : float) : result float :=
  let score := if has_watch alerts then py_max score c70 else score in
  let score := if has_warning alerts then py_max score c90 else score in
  let score := if has_pds alerts then py_max score c98 else score in
  py_round1 (py_max c0 (py_min c100 score)).

(** The value of [max(0.0, min(100.0, s))], in units. *)
Definition clipZ (s : float) : Z :=
  match s with
  | Fin n => Z.max 0 (Z.min (100 * U) n)
  | Inf true => 0
  | _ => 100 * U
  end.

(** The value of [round(x, 1)] for the finite [x] of [n] units. *)
Definition round1Z (n : Z) : Z := round_units (rhe (10 * n) U * U) 10.

(** A float as the operations produce it: representable and in range. *)
Definition valid (x : float) : Prop :=
  match x with
  | Fin n => round_units n 1 = n /\ Z.abs n < HUGE
  | _ => True
  end.

(** A float that is finite or [-inf]. *)
Definition low (x : float) : Prop :=
  match x with
  | Fin _ | Inf true => True
  | _ => False
  end.

(** Two outcomes are related when their results are, if both return. *)
Definition rel_result {A : Type} (R : A -> A -> Prop) (c c' : result A) : Prop :=
  forall a a', c = OK a -> c' = OK a' -> R a a'.

(** The floats of two ordered integers that both convert: ordered and finite. *)
Definition conv_rel (z z' : Z) (x x' : float) : Prop :=
  exists n n', x = Fin n /\ x' = Fin n' /\ n <= n' /\
               float_of_int z = OK (Fin n) /\ float_of_int z' = OK (Fin n').

(** The three alert floors of [score_likelihood]. *)
Definition floors (al : AlertFlags) (score : float) : float :=
  let score := if has_watch al then py_max score c70 else score in
  let score := if has_warning al then py_max score c90 else score in
  if has_pds al then py_max score c98 else score.


(** ** Scanners that the regular expressions are compared with *)

(** The rest of [s] after the prefix [w], compared without case. *)
Fixpoint strip_prefix_ci (w s : string) : option string :=
  match w with
  | EmptyString => Some s
  | String a w' =>
      match s with
      | String c s' =>
          if Ascii.eqb (lower_char c) (lower_char a) then strip_prefix_ci w' s'
          else None
      | EmptyString => None
      end
  end.

Fixpoint take_while (p : ascii -> bool) (s : string) : string :=
  match s with
  | String c s' => if p c then String c (take_while p s') else EmptyString
  | EmptyString => EmptyString
  end.

Fixpoint drop_while (p : ascii -> bool) (s : string) : string :=
  match s with
  | String c s' => if p c then drop_while p s' else s
  | EmptyString => EmptyString
  end.

(** A greedy star of one character class, with backtracking. *)
Fixpoint star_chr {A : Type} (p : ascii -> bool) (s : string) (g : option string)
  (k : string -> option string -> option A) : option A :=
  match s with
  | String c s' =>
      if p c then
        match star_chr p s' g k with
        | Some x => Some x
        | None => k s g
        end
      else k s g
  | EmptyString => k s g
  end.

(** The first maximal run of digits of [s]. *)
Fixpoint first_digits (s : string) : option string :=
  match s with
  | EmptyString => None
  | String c s' =>
      if is_digit c then Some (String c (take_while is_digit s'))
      else first_digits s'
  end.

(** The run of digits at the start of [s], when optional white space and
    then a percent sign follow it. *)
Definition pct_at (s : string) : option string :=
  match s with
  | String c s' =>
      if is_digit c then
        match drop_while is_space (drop_while is_digit s') with
        | String d _ => if Ascii.eqb d "%" then Some (String c (take_while is_digit s'))
                        else None
        | EmptyString => None
        end
      else None
  | EmptyString => None
  end.

(** The first run of digits of [s] that optional white space and a percent
    sign follow. *)
Fixpoint find_pct (s : string) : option string :=
  match pct_at s with
  | Some ds => Some ds
  | None =>
      match s with
      | EmptyString => None
      | String _ s' => find_pct s'
      end
  end.

(** The value of a string of decimal digits. *)
Fixpoint decimal (s : string) (acc : Z) : Z :=
  match s with
  | EmptyString => acc
  | String c s' => decimal s' (10 * acc + digit_val c)
  end.

Fixpoint all_chars (p : ascii -> bool) (s : string) : bool :=
  match s with
  | EmptyString => true
  | String c s' => p c && all_chars p s'
  end.

Definition is_some {A : Type} (o : option A) : bool :=
  match o with
  | Some _ => true
  | None => false
  end.

(** A short description mentions thunder: lowercased, it contains
    "thunder", "t-storm" or "storm". *)
Definition mentions_thunder (s : string) : bool :=
  contains "thunder" (lower s) || contains "t-storm" (lower s) ||
  contains "storm" (lower s).

(** ** Readings of one hourly period *)

(** The value at the end of a path of keys, when every step exists. *)
Fixpoint path (cur : pyval) (keys : list string) : option pyval :=
  match keys with
  | [] => Some cur
  | k :: keys' =>
      match cur with
      | PDict d =>
          match lookup d k with
          | Some v => path v keys'
          | None => None
          end
      | _ => None
      end
  end.

(** The short description: the text under "shortForecast", the empty text
    when the key is missing or its value is falsy; any other value makes
    the search raise. *)
Definition description (p : dict) : result string :=
  match lookup p "shortForecast" with
  | None => OK ""
  | Some (PStr s) => OK s
  | Some v => if truthy v then Raise TypeError else OK ""
  end.

Definition clamp_percent (z : Z) : Z := Z.max 0 (Z.min 100 z).

(** The precipitation probability of a period: [int] of the value, clamped
    to [[0, 100]]; 0 when the value is missing or [int] refuses it. *)
Definition pop_percent (p : dict) : Z :=
  match path (PDict p) ["probabilityOfPrecipitation"; "value"] with
  | Some (PBool b) => if b then 1 else 0
  | Some (PInt z) => clamp_percent z
  | Some (PFloat (Fin n)) => clamp_percent (Z.quot n U)
  | Some (PStr s) =>
      match int_of_str s with
      | OK z => clamp_percent z
      | Raise _ => 0
      end
  | _ => 0
  end.

(** [int] of a non-empty string of digits. *)
Definition digits_int (ds : string) : result Z :=
  if Z.of_nat (String.length ds) <=? INT_MAX_STR_DIGITS
  then OK (decimal ds 0) else Raise ValueError.

(** The gust of a period, in mph. *)
Definition gust_reading (p : dict) : result Z :=
  match lookup p "windGust" with
  | Some (PStr s) =>
      match first_digits s with
      | Some ds => digits_int ds
      | None => OK 0
      end
  | Some (PBool b) => OK (if b then 1 else 0)
  | Some (PInt z) => x <- float_of_int z ;; int_of_float x
  | Some (PFloat x) => int_of_float x
  | _ => OK 0
  end.

Definition thunder_period (p : dict) : bool :=
  match description p with
  | OK d => mentions_thunder d
  | Raise _ => false
  end.

Definition gust_mph (p : dict) : Z :=
  match gust_reading p with
  | OK g => g
  | Raise _ => 0
  end.

(** The periods on which the loop body raises nothing. *)
Definition readable (p : dict) : bool :=
  match description p, gust_reading p with
  | OK _, OK _ => true
  | _, _ => false
  end.

(** The largest of 0 and the elements of a list. *)
Definition max0 (l : list Z) : Z := fold_right Z.max 0 l.

(** ** The summary as the specification words it

    The maximum of a list, 0 for the empty list; the precipitation value
    clamped to [[0, 100]] with no conversion to an integer, in units of
    [2^-1074]; and the gust used as it is. *)

Definition maximum (l : list Z) : Z :=
  match l with
  | [] => 0
  | x :: l' => fold_left Z.max l' x
  end.

Definition stated_pop_units (p : dict) : Z :=
  match path (PDict p) ["probabilityOfPrecipitation"; "value"] with
  | Some (PInt z) => Z.max 0 (Z.min (100 * U) (z * U))
  | Some (PFloat (Fin n)) => Z.max 0 (Z.min (100 * U) n)
  | _ => 0
  end.

Definition stated_gust (p : dict) : Z :=
  match lookup p "windGust" with
  | Some (PStr s) =>
      match first_digits s with
      | Some ds => decimal ds 0
      | None => 0
      end
  | Some (PInt z) => z
  | Some (PFloat (Fin n)) => Z.quot n U
  | _ => 0
  end.

Definition stated_summary (ps : list dict) (r : HourlySummary) : Prop :=
  thunder_hours r = Z.of_nat (List.length (filter thunder_period ps)) /\
  max_pop r * U = maximum (map stated_pop_units ps) /\
  max_gust_mph r = maximum (map stated_gust ps).

(** One hour with a 45.5 percent precipitation probability and a gust
    of -5. *)
Definition fractional_pop_negative_gust : list dict :=
  [ [ ("shortForecast", PStr "Sunny");
      ("probabilityOfPrecipitation", PDict [("value", PFloat (literal 455 10))]);
      ("windGust", PInt (-5)) ] ].

(** ** Notions for the resolvers *)

(** The categorical vocabulary, in the order in which it is tried. *)
Definition VOCABULARY : list string := ["TSTM"; "MRGL"; "SLGT"; "ENH"; "MDT"; "HIGH"].

(** [label.upper().replace(" ", "")]. *)
Definition normalize (label : string) : string := remove_char " " (upper label).

Fixpoint remove_if (p : ascii -> bool) (s : string) : string :=
  match s with
  | EmptyString => EmptyString
  | String a s' => if p a then remove_if p s' else String a (remove_if p s')
  end.

(** The normalization as the specification words it: uppercase, and every
    white space character removed. *)
Definition stated_normalize (label : string) : string := remove_if is_space (upper label).

(** A response whose only polygon has the attributes [props]. *)
Definition one_polygon (props : dict) : dict :=
  [ ("type", PStr "FeatureCollection");
    ("features", PList [PDict [("type", PStr "Feature"); ("properties", PDict props)]]) ].

(** The label "EN<tab>H". *)
Definition tabbed_label : string := String "E" (String "N" (String "009" (String "H" ""))).

(** The percentage pattern as the specification words it: a run of digits
    with a percent sign right after it. *)
Definition pct_at_immediate (s : string) : option string :=
  match s with
  | String c s' =>
      if is_digit c then
        match drop_while is_digit s' with
        | String d _ => if Ascii.eqb d "%" then Some (String c (take_while is_digit s'))
                        else None
        | EmptyString => None
        end
      else None
  | EmptyString => None
  end.

Fixpoint find_pct_immediate (s : string) : option string :=
  match pct_at_immediate s with
  | Some ds => Some ds
  | None =>
      match s with
      | EmptyString => None
      | String _ s' => find_pct_immediate s'
      end
  end.

(** The first element of a list on which [f] finds something. *)
Fixpoint first_some {A B : Type} (f : A -> option B) (l : list A) : option B :=
  match l with
  | [] => None
  | x :: l' =>
      match f x with
      | Some y => Some y
      | None => first_some f l'
      end
  end.

(** [int] of the digits found, when some were found. *)
Definition percent_of (found : option string) : result (option Z) :=
  match found with
  | Some ds => z <- digits_int ds ;; OK (Some z)
  | None => OK None
  end.

(** The rendering used on inputs that hold no float, list or dictionary
    where text is expected. *)
Definition no_rendering (v : pyval) : string := "".

Definition pds_only : AlertFlags :=
  {| has_watch := false; has_warning := false; has_pds := true |}.

Definition no_alerts : AlertFlags :=
  {| has_watch := false; has_warning := false; has_pds := false |}.

Definition calm : HourlySummary :=
  {| thunder_hours := 0; max_pop := 0; max_gust_mph := 0 |}.

(** An alert whose description alone carries text. *)
Definition warning_alert : pyval :=
  PDict [("properties", PDict [("description", PStr "...Tornado Warning issued...")])].

(** ** Notions for further properties of the score *)

(** Every flag set in [a] is set in [a']. *)
Definition flags_le (a a' : AlertFlags) : Prop :=
  (has_watch a = true -> has_watch a' = true) /\
  (has_warning a = true -> has_warning a' = true) /\
  (has_pds a = true -> has_pds a' = true).

(** ** Notions for further properties of the summary *)

(** The exception that the search of the description raises, if any: a
    [TypeError] on a truthy value that is not text. *)
Definition description_error (p : dict) : option exn :=
  match lookup p "shortForecast" with
  | Some (PStr _) | None => None
  | Some v => if truthy v then Some TypeError else None
  end.

(** The exception that the reading of the gust raises, if any: a
    [ValueError] on a run of more than 4300 digits and on a NaN, an
    [OverflowError] on an infinity and on an integer beyond the floats. *)
Definition gust_error (p : dict) : option exn :=
  match lookup p "windGust" with
  | Some (PStr s) =>
      match first_digits s with
      | Some ds =>
          if Z.of_nat (String.length ds) <=? INT_MAX_STR_DIGITS then None
          else Some ValueError
      | None => None
      end
  | Some (PInt z) =>
      if Z.abs z <? 2 ^ 1024 - 2 ^ 970 then None else Some OverflowError
  | Some (PFloat NaN) => Some ValueError
  | Some (PFloat (Inf _)) => Some OverflowError
  | _ => None
  end.

(** The exception that the loop body raises on a period, if any. *)
Definition period_error (p : dict) : option exn :=
  match description_error p with
  | Some e => Some e
  | None => gust_error p
  end.

(** The summary of a list of readable periods. *)
Definition summary_of (ps : list dict) : HourlySummary :=
  {| thunder_hours := Z.of_nat (List.length (filter thunder_period ps));
     max_pop := max0 (map pop_percent ps);
     max_gust_mph := max0 (map gust_mph ps) |}.

(** Two summaries of adjacent stretches of hours, merged. *)
Definition merge (a b : HourlySummary) : HourlySummary :=
  {| thunder_hours := thunder_hours a + thunder_hours b;
     max_pop := Z.max (max_pop a) (max_pop b);
     max_gust_mph := Z.max (max_gust_mph a) (max_gust_mph b) |}.

(** ** Notions for further properties of the alerts *)

Definition flags_or (a b : AlertFlags) : AlertFlags :=
  {| has_watch := has_watch a || has_watch b;
     has_warning := has_warning a || has_warning b;
     has_pds := has_pds a || has_pds b |}.

(** The flags as disjunctions over the alerts. *)
Definition flags_of (str_other : pyval -> string) (fs : list pyval) : AlertFlags :=
  {| has_watch := existsb (watches str_other) fs;
     has_warning := existsb (warns str_other) fs;
     has_pds := existsb (is_pds str_other) fs |}.

(** ** Orchestration: the hours of the next day

    The loop of [main] that keeps the periods that start in the next 24
    hours.  Instants are counted in microseconds; the clock and the parser
    of ISO 8601 text are parameters. *)

(** A parsed date and time: an instant when it carries a UTC offset. *)
Inductive datetime : Type :=
| Aware (t : Z)
| Naive.

(** [dt.timedelta(hours=24)]. *)
Definition DAY : Z := 24 * 3600 * 1000000.

(** [next_24h_window()] when the clock reads [now]. *)
Definition next_24h_window (now : Z) : Z * Z := (now, now + DAY).

(** [ts.replace("Z", "+00:00")]. *)
Fixpoint replace_Z (ts : string) : string :=
  match ts with
  | EmptyString => EmptyString
  | String c ts' =>
      if Ascii.eqb c "Z" then "+00:00" ++ replace_Z ts' else String c (replace_Z ts')
  end.

Section Window.

(** [dt.datetime.fromisoformat]. *)
Variable fromisoformat : string -> result datetime.

(** The test of one period of the loop; [false] also for a period that the
    loop skips because its start is missing or falsy. *)
Definition starts_in (start_utc end_utc : Z) (p : pyval) : result bool :=
  ts <- get_method p "startTime" PNone ;;
  if negb (truthy ts) then OK false
  else
    match ts with
    | PStr s =>
        t <- fromisoformat (replace_Z s) ;;
        match t with
        | Aware t => OK ((start_utc <=? t) && (t <? end_utc))
        | Naive => Raise TypeError
        end
    | _ => Raise AttributeError
    end.

(** The loop that fills [next24]. *)
Fixpoint next24_loop (start_utc end_utc : Z) (periods : list pyval)
  : result (list pyval) :=
  match periods with
  | [] => OK []
  | p :: periods' =>
      keep <- starts_in start_utc end_utc p ;;
      rest <- next24_loop start_utc end_utc periods' ;;
      OK (if keep then p :: rest else rest)
  end.

Definition next24 (now : Z) (periods : list pyval) : result (list pyval) :=
  let (start_utc, end_utc) := next_24h_window now in
  next24_loop start_utc end_utc periods.

(** The periods that the loop keeps: those whose start is read as an
    instant of the window. *)
Definition kept (now : Z) (p : pyval) : bool :=
  match starts_in now (now + DAY) p with
  | OK b => b
  | Raise _ => false
  end.

End Window.

(** A parser that knows two texts: midnight of a day, taken as instant 0,
    and the same hour one day later. *)
Definition two_hours_parser (s : string) : result datetime :=
  if String.eqb s "2026-01-01T00:00:00+00:00" then OK (Aware 0)
  else if String.eqb s "2026-01-02T00:00:00+00:00" then OK (Aware DAY)
  else Raise ValueError.

Definition two_periods : list pyval :=
  [ PDict [("startTime", PStr "2026-01-01T00:00:00Z")];
    PDict [("startTime", PStr "2026-01-02T00:00:00Z")] ].

(** ** The floats of the Standard Library

    [SpecFloat] specifies binary64 on a sign, a significand and an exponent;
    [to_spec] is the number of that form with the value of a float of this
    file. *)
Definition to_spec (x : float) : SpecFloat.spec_float :=
  match x with
  | NaN => SpecFloat.S754_nan
  | Inf s => SpecFloat.S754_infinity s
  | Fin n => SpecFloat.binary_normalize 53 1024 n (-1074) false
  end.

Definition same_float (a b : SpecFloat.spec_float) : bool :=
  match SpecFloat.SFcompare a b with
  | Some Eq => true
  | _ => false
  end.

Definition percentages : list Z := [0; 1; 2; 5; 10; 15; 30; 45; 60; 100].

(** ** The score in exact decimal arithmetic, in tenths *)

(** Ten times the sum of steps 1 to 5, computed on integers. *)
Definition exact_tenths (spc_cat : option string) (spc_prob_tor : option Z)
  (hs : HourlySummary) : Z :=
  10 * dict_get CAT_WEIGHTS spc_cat 0 +
  match spc_prob_tor with Some p => 12 * p | None => 0 end +
  20 * Z.min (thunder_hours hs) 10 +
  (if 35 <? max_gust_mph hs then 10 * Z.min (max_gust_mph hs - 35) 30 else 0) +
  2 * max_pop hs.

Definition floor_tenths (al : AlertFlags) (k : Z) : Z :=
  let k := if has_watch al then Z.max k 700 else k in
  let k := if has_warning al then Z.max k 900 else k in
  if has_pds al then Z.max k 980 else k.

Definition score_tenths (spc_cat : option string) (spc_prob_tor : option Z)
  (al : AlertFlags) (hs : HourlySummary) : Z :=
  Z.max 0 (Z.min 1000 (floor_tenths al (exact_tenths spc_cat spc_prob_tor hs))).

(** The error that one operation adds, in units, and the bound on the
    magnitudes, for inputs up to [2^20]. *)
Definition EPS : Z := 2 ^ 1055.
Definition BIG : Z := 2 ^ 30 * U.

(** [s] is within [e / 10] units of [k] tenths. *)
Definition approx (e : Z) (s : float) (k : Z) : Prop :=
  exists n, s = Fin n /\ Z.abs (10 * n - k * U) <= e.

(** * Proofs *)

Lemma rhe_exact (m b : Z) : 0 < b -> rhe (m * b) b = m.
Proof.
  intros Hb. unfold rhe.
  rewrite Z.div_mul by lia. rewrite Z.mod_mul; [|lia..].
  assert (E0 : (2 * 0 ?= b) = Lt) by (apply Z.compare_lt_iff; lia).
  rewrite E0. reflexivity.
Qed.

Lemma rhe_bounds (a b : Z) : 0 < b -> a / b <= rhe a b <= a / b + 1.
Proof.
  intros Hb. unfold rhe.
  destruct (2 * (a mod b) ?= b); try destruct (Z.even (a / b)); lia.
Qed.

Lemma rhe_mono (a a' b : Z) : 0 < b -> a <= a' -> rhe a b <= rhe a' b.
Proof.
  intros Hb Ha.
  assert (Hq : a / b <= a' / b) by (apply Z.div_le_mono; lia).
  destruct (Z.eq_dec (a / b) (a' / b)) as [E|N].
  - assert (Hr : a mod b <= a' mod b).
    { rewrite (Z.mod_eq a b), (Z.mod_eq a' b) by lia. rewrite E. lia. }
    unfold rhe. rewrite <- E.
    destruct (Z.compare_spec (2 * (a mod b)) b);
      destruct (Z.compare_spec (2 * (a' mod b)) b);
      destruct (Z.even (a / b)); lia.
  - pose proof (rhe_bounds a b Hb). pose proof (rhe_bounds a' b Hb). lia.
Qed.

Lemma rhe_opp (a b : Z) : 0 < b -> rhe (- a) b = - rhe a b.
Proof.
  intros Hb. unfold rhe.
  destruct (Z.eq_dec (a mod b) 0) as [E|N].
  - rewrite Z.div_opp_l_z, Z.mod_opp_l_z, E by lia.
    assert (E0 : (2 * 0 ?= b) = Lt) by (apply Z.compare_lt_iff; lia).
    rewrite E0. reflexivity.
  - rewrite Z.div_opp_l_nz, Z.mod_opp_l_nz by lia.
    pose proof (Z.mod_pos_bound a b Hb).
    replace (Z.even (- (a / b) - 1)) with (negb (Z.even (a / b))).
    2:{ replace (- (a / b) - 1) with (- (a / b + 1)) by lia.
        rewrite Z.even_opp, Z.even_add. simpl.
        destruct (Z.even (a / b)); reflexivity. }
    destruct (Z.compare_spec (2 * (a mod b)) b);
      destruct (Z.compare_spec (2 * (b - a mod b)) b);
      destruct (Z.even (a / b)); simpl; lia.
Qed.

Lemma digits_nonneg (n : Z) : 0 <= digits n.
Proof.
  unfold digits. destruct (n =? 0); [lia|]. pose proof (Z.log2_nonneg n). lia.
Qed.

Lemma digits_mono (n n' : Z) : 0 <= n <= n' -> digits n <= digits n'.
Proof.
  intros H. unfold digits.
  destruct (Z.eqb_spec n 0); destruct (Z.eqb_spec n' 0); try lia.
  - pose proof (Z.log2_nonneg n'). lia.
  - pose proof (Z.log2_le_mono n n'). lia.
Qed.

Lemma digits_upper (n : Z) : 0 <= n -> n < 2 ^ digits n.
Proof.
  intros H. unfold digits. destruct (Z.eqb_spec n 0).
  - subst. simpl. lia.
  - replace (Z.log2 n + 1) with (Z.succ (Z.log2 n)) by lia.
    apply Z.log2_spec. lia.
Qed.

Lemma digits_lower (n : Z) : 0 < n -> 2 ^ (digits n - 1) <= n.
Proof.
  intros H. unfold digits. destruct (Z.eqb_spec n 0); [lia|].
  replace (Z.log2 n + 1 - 1) with (Z.log2 n) by lia.
  apply Z.log2_spec. lia.
Qed.

Lemma shift_of_nonneg (n : Z) : 0 <= shift_of n.
Proof. unfold shift_of. lia. Qed.

Lemma shift_of_mono (n n' : Z) : 0 <= n <= n' -> shift_of n <= shift_of n'.
Proof. intros H. unfold shift_of. pose proof (digits_mono n n' H). lia. Qed.

Lemma shift_of_upper (n : Z) : 0 <= n -> n < 2 ^ (53 + shift_of n).
Proof.
  intros H. pose proof (digits_upper n H). pose proof (digits_nonneg n).
  eapply Z.lt_le_trans; [eassumption|].
  apply Z.pow_le_mono_r; unfold shift_of; lia.
Qed.

Lemma shift_of_lower (n : Z) : 0 <= n -> 0 < shift_of n -> 2 ^ (52 + shift_of n) <= n.
Proof.
  intros H Hs. unfold shift_of in *.
  assert (0 < n).
  { destruct (Z.eq_dec n 0); [subst; vm_compute in Hs; discriminate | lia]. }
  pose proof (digits_lower n H0).
  replace (52 + Z.max 0 (digits n - 53)) with (digits n - 1) by lia.
  assumption.
Qed.

Lemma round_units_opp (a b : Z) : 0 < b -> round_units (- a) b = - round_units a b.
Proof.
  intros Hb. unfold round_units. rewrite Z.abs_opp.
  rewrite rhe_opp. lia.
  pose proof (shift_of_nonneg (Z.abs a / b)).
  assert (0 < 2 ^ shift_of (Z.abs a / b)) by (apply Z.pow_pos_nonneg; lia). nia.
Qed.

Lemma round_units_sig (a b : Z) : 0 < b -> 0 <= a ->
  0 <= rhe a (b * 2 ^ shift_of (a / b)) <= 2 ^ 53.
Proof.
  intros Hb Ha.
  set (k := shift_of (a / b)).
  assert (Hk : 0 <= k) by apply shift_of_nonneg.
  assert (Hp : 0 < 2 ^ k) by (apply Z.pow_pos_nonneg; lia).
  assert (HB : 0 < b * 2 ^ k) by nia.
  split.
  - pose proof (rhe_bounds a (b * 2 ^ k) HB).
    assert (0 <= a / (b * 2 ^ k)) by (apply Z.div_pos; lia). lia.
  - assert (Hfl : a / b < 2 ^ (53 + k)).
    { apply shift_of_upper. apply Z.div_pos; lia. }
    assert (a < b * 2 ^ (53 + k)).
    { pose proof (Z.div_mod a b). pose proof (Z.mod_pos_bound a b Hb). nia. }
    rewrite Z.pow_add_r in H by lia.
    rewrite <- (rhe_exact (2 ^ 53) (b * 2 ^ k) HB).
    apply rhe_mono; lia.
Qed.

Lemma round_units_nonneg (a b : Z) : 0 < b -> 0 <= a -> 0 <= round_units a b.
Proof.
  intros Hb Ha. unfold round_units. rewrite Z.abs_eq by lia.
  pose proof (round_units_sig a b Hb Ha).
  pose proof (shift_of_nonneg (a / b)).
  assert (0 < 2 ^ shift_of (a / b)) by (apply Z.pow_pos_nonneg; lia). nia.
Qed.

Lemma round_units_mono_nonneg (a a' b : Z) :
  0 < b -> 0 <= a <= a' -> round_units a b <= round_units a' b.
Proof.
  intros Hb Ha. unfold round_units.
  rewrite !Z.abs_eq by lia.
  set (k := shift_of (a / b)). set (k' := shift_of (a' / b)).
  assert (Hfl : 0 <= a / b <= a' / b).
  { split; [apply Z.div_pos; lia | apply Z.div_le_mono; lia]. }
  assert (Hk : 0 <= k) by apply shift_of_nonneg.
  assert (Hkk : k <= k') by (apply shift_of_mono; lia).
  assert (Hp : 0 < 2 ^ k) by (apply Z.pow_pos_nonneg; lia).
  assert (Hp' : 0 < 2 ^ k') by (apply Z.pow_pos_nonneg; lia).
  destruct (Z.eq_dec k k') as [E|N].
  - rewrite <- E. apply Z.mul_le_mono_nonneg_r; [lia|].
    apply rhe_mono; [nia | lia].
  - assert (Hs : rhe a (b * 2 ^ k) <= 2 ^ 53).
    { apply (round_units_sig a b); lia. }
    assert (Hl : 2 ^ (52 + k') <= a' / b).
    { apply shift_of_lower; fold k'; lia. }
    assert (Ha' : b * 2 ^ (52 + k') <= a').
    { pose proof (Z.mul_div_le a' b Hb). nia. }
    assert (Hs' : 2 ^ 52 <= rhe a' (b * 2 ^ k')).
    { rewrite <- (rhe_exact (2 ^ 52) (b * 2 ^ k')) by nia.
      apply rhe_mono; [nia|]. rewrite Z.pow_add_r in Ha' by lia. lia. }
    apply Z.le_trans with (2 ^ 53 * 2 ^ k); [nia|].
    apply Z.le_trans with (2 ^ 52 * 2 ^ k'); [|nia].
    rewrite <- !Z.pow_add_r by lia.
    apply Z.pow_le_mono_r; lia.
Qed.

Lemma round_units_mono (a a' b : Z) :
  0 < b -> a <= a' -> round_units a b <= round_units a' b.
Proof.
  intros Hb Ha.
  destruct (Z.le_gt_cases 0 a) as [P|P].
  - apply round_units_mono_nonneg; lia.
  - destruct (Z.le_gt_cases 0 a') as [P'|P'].
    + apply Z.le_trans with 0.
      * replace a with (- - a) by lia. rewrite round_units_opp by lia.
        pose proof (round_units_nonneg (- a) b). lia.
      * apply round_units_nonneg; lia.
    + replace a with (- - a) by lia. replace a' with (- - a') by lia.
      rewrite (round_units_opp (- a)), (round_units_opp (- a')) by lia.
      pose proof (round_units_mono_nonneg (- a') (- a) b). lia.
Qed.

Lemma round_units_fix_nonneg (m k : Z) :
  0 <= k -> 0 <= m <= 2 ^ 53 -> round_units (m * 2 ^ k) 1 = m * 2 ^ k.
Proof.
  intros Hk Hm. unfold round_units.
  assert (Hp : 0 < 2 ^ k) by (apply Z.pow_pos_nonneg; lia).
  rewrite Z.abs_eq by nia. rewrite Z.div_1_r, Z.mul_1_l.
  set (n := m * 2 ^ k).
  assert (Hn : 0 <= n) by (unfold n; nia).
  remember (shift_of n) as j eqn:Ej.
  assert (Hj : 0 <= j) by (rewrite Ej; apply shift_of_nonneg).
  assert (Hpj : 0 < 2 ^ j) by (apply Z.pow_pos_nonneg; lia).
  assert (D : exists c, n = c * 2 ^ j).
  { destruct (Z.le_gt_cases j k) as [L|G].
    - exists (m * 2 ^ (k - j)). unfold n.
      rewrite <- Z.mul_assoc, <- Z.pow_add_r by lia. do 2 f_equal. lia.
    - assert (Hl : 2 ^ (52 + j) <= n).
      { rewrite Ej. apply shift_of_lower; [lia | rewrite <- Ej; lia]. }
      assert (Hu : n <= 2 ^ (53 + k)).
      { unfold n. rewrite Z.pow_add_r by lia. nia. }
      assert (52 + j <= 53 + k).
      { apply (Z.pow_le_mono_r_iff 2); lia. }
      assert (Hjk : j = k + 1) by lia.
      exists (2 ^ 52).
      assert (E : n = 2 ^ (53 + k)).
      { apply Z.le_antisymm; [assumption|].
        replace (53 + k) with (52 + j) by lia. exact Hl. }
      rewrite E, Hjk, <- Z.pow_add_r by lia. f_equal. lia. }
  destruct D as [c Hc]. rewrite Hc. rewrite rhe_exact by lia. reflexivity.
Qed.

Lemma round_units_fix (m k : Z) :
  0 <= k -> Z.abs m <= 2 ^ 53 -> round_units (m * 2 ^ k) 1 = m * 2 ^ k.
Proof.
  intros Hk Hm. destruct (Z.le_gt_cases 0 m).
  - apply round_units_fix_nonneg; lia.
  - replace (m * 2 ^ k) with (- (- m * 2 ^ k)) by lia.
    rewrite round_units_opp by lia.
    rewrite round_units_fix_nonneg by lia. reflexivity.
Qed.

(** Rounding yields a representable number: rounding it again changes nothing. *)
Lemma round_units_idem (a b : Z) :
  0 < b -> round_units (round_units a b) 1 = round_units a b.
Proof.
  intros Hb.
  assert (N : forall a, 0 <= a -> round_units (round_units a b) 1 = round_units a b).
  { intros x Hx. unfold round_units at 2 3. rewrite Z.abs_eq by lia.
    apply round_units_fix.
    - apply shift_of_nonneg.
    - pose proof (round_units_sig x b Hb Hx). lia. }
  destruct (Z.le_gt_cases 0 a).
  - apply N; lia.
  - replace a with (- - a) by lia. rewrite (round_units_opp (- a)) by lia.
    rewrite round_units_opp by lia. rewrite N by lia. reflexivity.
Qed.

Lemma U_pos : 0 < U.
Proof. reflexivity. Qed.

Lemma HUGE_pos : 0 < HUGE.
Proof. reflexivity. Qed.

Lemma round_units_int (z : Z) : Z.abs z <= 2 ^ 53 -> round_units (z * U) 1 = z * U.
Proof. intros H. unfold U. apply round_units_fix; lia. Qed.

(** ** The order [fle] *)

Lemma fle_refl (x : float) : fle x x.
Proof. destruct x as [|[]|n]; simpl; lia. Qed.

Lemma fle_trans (x y z : float) : fle x y -> fle y z -> fle x z.
Proof.
  destruct x as [|[]|a], y as [|[]|b], z as [|[]|c]; simpl; try tauto; lia.
Qed.

Lemma of_units_mono (n n' : Z) : n <= n' -> fle (of_units n) (of_units n').
Proof.
  intros H. unfold of_units. pose proof HUGE_pos.
  destruct (Z.leb_spec HUGE (Z.abs n)); destruct (Z.leb_spec HUGE (Z.abs n'));
    destruct (Z.ltb_spec n 0); destruct (Z.ltb_spec n' 0); simpl; lia.
Qed.

Lemma round_mono (a a' b : Z) : 0 < b -> a <= a' -> fle (round a b) (round a' b).
Proof. intros. apply of_units_mono, round_units_mono; assumption. Qed.

Lemma low_below (x y : float) : fle x y -> low y -> low x.
Proof. destruct x as [|[]|a], y as [|[]|b]; simpl; tauto. Qed.

Lemma fle_top (x y : float) : y = NaN \/ y = Inf false -> fle x y.
Proof. intros [E|E]; subst; destruct x as [|[]|a]; exact I. Qed.

Lemma fle_bot (y : float) : fle (Inf true) y.
Proof. destruct y as [|[]|a]; exact I. Qed.

Ltac fle_cases :=
  cbn [add Bool.eqb]; cbn [fle low] in * |-;
  first
    [ contradiction
    | match goal with
      | |- fle (round _ _) (round _ _) => apply round_mono; lia
      | |- fle (Inf true) _ => apply fle_bot
      | |- fle _ NaN => apply fle_top; left; reflexivity
      | |- fle _ (Inf false) => apply fle_top; right; reflexivity
      end ].

Lemma add_mono (x x' y y' : float) :
  fle x x' -> fle y y' -> low y' -> fle (add x y) (add x' y').
Proof.
  intros Hx Hy Hl.
  destruct x as [|[]|a], x' as [|[]|a'], y as [|[]|b], y' as [|[]|b']; fle_cases.
Qed.

Lemma add_mono_fin (a : Z) (y y' : float) :
  fle y y' -> fle (add (Fin a) y) (add (Fin a) y').
Proof.
  intros Hy. destruct y as [|[]|b], y' as [|[]|b']; fle_cases.
Qed.

Lemma add_mono_fin_l (a a' : Z) (y : float) :
  a <= a' -> fle (add (Fin a) y) (add (Fin a') y).
Proof.
  intros Ha. destruct y as [|[]|b]; fle_cases.
Qed.

Lemma mul_mono_fin (c a a' : Z) :
  0 <= c -> a <= a' -> fle (mul (Fin c) (Fin a)) (mul (Fin c) (Fin a')).
Proof. intros Hc Ha. cbn [mul]. apply round_mono; [apply U_pos | nia]. Qed.

Lemma score_of_unfold c p a h :
  score_of (score_likelihood c p a h) =
  (s <- raw_score (dict_get CAT_WEIGHTS c 0) p h ;; finish a s).
Proof.
  unfold score_of, score_likelihood, raw_score, finish, bind.
  destruct (float_of_int (dict_get CAT_WEIGHTS c 0)); [|reflexivity].
  destruct p as [p|].
  - destruct (float_of_int p); [|reflexivity].
    destruct (float_of_int (Z.min (thunder_hours h) 10)); [|reflexivity].
    destruct (35 <? max_gust_mph h).
    + destruct (float_of_int (Z.min (max_gust_mph h - 35) 30)); [|reflexivity].
      destruct (float_of_int (max_pop h)); [|reflexivity].
      destruct (py_round1 _); reflexivity.
    + destruct (float_of_int (max_pop h)); [|reflexivity].
      destruct (py_round1 _); reflexivity.
  - destruct (float_of_int (Z.min (thunder_hours h) 10)); [|reflexivity].
    destruct (35 <? max_gust_mph h).
    + destruct (float_of_int (Z.min (max_gust_mph h - 35) 30)); [|reflexivity].
      destruct (float_of_int (max_pop h)); [|reflexivity].
      destruct (py_round1 _); reflexivity.
    + destruct (float_of_int (max_pop h)); [|reflexivity].
      destruct (py_round1 _); reflexivity.
Qed.

(** ** Conversions *)

Lemma float_of_int_inv (z : Z) (x : float) :
  float_of_int z = OK x ->
  exists n, x = Fin n /\ n = round_units (z * U) 1 /\ Z.abs n < HUGE.
Proof.
  unfold float_of_int, of_Z, round, of_units.
  destruct (Z.leb_spec HUGE (Z.abs (round_units (z * U) 1))); [discriminate|].
  intros E. injection E as <-. eauto.
Qed.

Lemma float_of_int_raise (z : Z) (e : exn) :
  float_of_int z = Raise e -> e = OverflowError /\ HUGE <= Z.abs (round_units (z * U) 1).
Proof.
  unfold float_of_int, of_Z, round, of_units.
  destruct (Z.leb_spec HUGE (Z.abs (round_units (z * U) 1))); [|discriminate].
  intros E. injection E as <-. auto.
Qed.

Lemma float_of_int_small (z : Z) :
  Z.abs z <= 2 ^ 53 -> float_of_int z = OK (Fin (z * U)).
Proof.
  intros H. unfold float_of_int, of_Z, round, of_units.
  rewrite round_units_int by assumption.
  assert (B : 2 ^ 53 * U < HUGE) by reflexivity.
  pose proof U_pos.
  destruct (Z.leb_spec HUGE (Z.abs (z * U))); [nia | reflexivity].
Qed.

Lemma top_round : round_units ((2 ^ 1024 - 2 ^ 970) * U) 1 = HUGE.
Proof. vm_compute. reflexivity. Qed.

Lemma below_top_round :
  round_units ((2 ^ 1024 - 2 ^ 970 - 1) * U) 1 = (2 ^ 1024 - 2 ^ 971) * U.
Proof. vm_compute. reflexivity. Qed.

(** [float_of_int] returns exactly on the integers in the float range. *)
Lemma float_of_int_range (z : Z) :
  in_float_range z <-> exists x, float_of_int z = OK x.
Proof.
  unfold in_float_range.
  assert (B : (2 ^ 1024 - 2 ^ 971) * U < HUGE) by reflexivity.
  pose proof U_pos as HU.
  split.
  - intros H.
    assert (Hhi : round_units (z * U) 1 <= (2 ^ 1024 - 2 ^ 971) * U).
    { rewrite <- below_top_round. apply round_units_mono; nia. }
    assert (Hlo : - ((2 ^ 1024 - 2 ^ 971) * U) <= round_units (z * U) 1).
    { rewrite <- below_top_round, <- round_units_opp by lia.
      apply round_units_mono; nia. }
    unfold float_of_int, of_Z, round, of_units.
    destruct (Z.leb_spec HUGE (Z.abs (round_units (z * U) 1))); [lia | eauto].
  - intros [x Hx]. apply float_of_int_inv in Hx. destruct Hx as (n & _ & -> & Hn).
    destruct (Z.lt_ge_cases (Z.abs z) (2 ^ 1024 - 2 ^ 970)) as [L|G]; [exact L|].
    exfalso.
    destruct (Z.le_gt_cases 0 z).
    + assert (HUGE <= round_units (z * U) 1).
      { rewrite <- top_round. apply round_units_mono; nia. }
      lia.
    + assert (round_units (z * U) 1 <= - HUGE).
      { rewrite <- top_round, <- round_units_opp by lia.
        apply round_units_mono; nia. }
      lia.
Qed.

Lemma float_of_int_total (z : Z) :
  (exists n, float_of_int z = OK (Fin n)) \/ float_of_int z = Raise OverflowError.
Proof.
  unfold float_of_int. destruct (of_Z z); eauto.
Qed.

Lemma float_of_int_mono (z z' n n' : Z) :
  z <= z' -> float_of_int z = OK (Fin n) -> float_of_int z' = OK (Fin n') -> n <= n'.
Proof.
  intros H E E'. apply float_of_int_inv in E, E'.
  destruct E as (m & Em & -> & _), E' as (m' & Em' & -> & _).
  injection Em as ->. injection Em' as ->.
  pose proof U_pos. apply round_units_mono; nia.
Qed.

(** ** Literals *)

Lemma c0_eq : c0 = Fin 0.
Proof. vm_compute. reflexivity. Qed.

Lemma c100_eq : c100 = Fin (100 * U).
Proof. vm_compute. reflexivity. Qed.

Lemma c70_eq : c70 = Fin (70 * U).
Proof. vm_compute. reflexivity. Qed.

Lemma c90_eq : c90 = Fin (90 * U).
Proof. vm_compute. reflexivity. Qed.

Lemma c98_eq : c98 = Fin (98 * U).
Proof. vm_compute. reflexivity. Qed.

Lemma c2_0_eq : c2_0 = Fin (2 * U).
Proof. vm_compute. reflexivity. Qed.

Lemma c1_2_fin : exists c, c1_2 = Fin c /\ 0 <= c.
Proof. eexists. split; [vm_compute; reflexivity | vm_compute; discriminate]. Qed.

Lemma c0_2_fin : exists c, c0_2 = Fin c /\ 0 <= c /\ c <= U.
Proof.
  eexists. split; [vm_compute; reflexivity|].
  split; vm_compute; discriminate.
Qed.

(** ** Clipping and rounding to one decimal *)

Lemma clip_spec (s : float) : py_max c0 (py_min c100 s) = Fin (clipZ s).
Proof.
  rewrite c0_eq, c100_eq. pose proof U_pos.
  unfold py_max, py_min, gtb.
  destruct s as [|[]|n]; cbn [ltb clipZ andb negb].
  - destruct (Z.ltb_spec 0 (100 * U)); [reflexivity | lia].
  - reflexivity.
  - destruct (Z.ltb_spec 0 (100 * U)); [reflexivity | lia].
  - destruct (Z.ltb_spec n (100 * U)); cbn [ltb].
    + destruct (Z.ltb_spec 0 n); f_equal; lia.
    + destruct (Z.ltb_spec 0 (100 * U)); f_equal; lia.
Qed.

Lemma clipZ_range (s : float) : 0 <= clipZ s <= 100 * U.
Proof. pose proof U_pos. destruct s as [|[]|n]; cbn [clipZ]; lia. Qed.

Lemma clipZ_mono (s s' : float) : fle s s' -> clipZ s <= clipZ s'.
Proof.
  pose proof U_pos.
  destruct s as [|[]|a], s' as [|[]|b]; cbn [clipZ fle]; try tauto; lia.
Qed.

Lemma round1Z_mono (n n' : Z) : n <= n' -> round1Z n <= round1Z n'.
Proof.
  intros H. unfold round1Z. pose proof U_pos.
  apply round_units_mono; [lia|].
  apply Z.mul_le_mono_nonneg_r; [lia|]. apply rhe_mono; lia.
Qed.

Lemma round1Z_0 : round1Z 0 = 0.
Proof. vm_compute. reflexivity. Qed.

Lemma round1Z_100 : round1Z (100 * U) = 100 * U.
Proof. vm_compute. reflexivity. Qed.

Lemma round1Z_70 : round1Z (70 * U) = 70 * U.
Proof. vm_compute. reflexivity. Qed.

Lemma round1Z_90 : round1Z (90 * U) = 90 * U.
Proof. vm_compute. reflexivity. Qed.

Lemma round1Z_98 : round1Z (98 * U) = 98 * U.
Proof. vm_compute. reflexivity. Qed.

Lemma round1Z_range (n : Z) : 0 <= n <= 100 * U -> 0 <= round1Z n <= 100 * U.
Proof.
  intros H. split.
  - rewrite <- round1Z_0. apply round1Z_mono; lia.
  - rewrite <- round1Z_100. apply round1Z_mono; lia.
Qed.

Lemma py_round1_spec (n : Z) :
  0 <= n <= 100 * U -> py_round1 (Fin n) = OK (Fin (round1Z n)).
Proof.
  intros H. pose proof (round1Z_range n H) as R.
  assert (B : 100 * U < HUGE) by reflexivity.
  unfold py_round1, round, of_units. fold (round1Z n).
  destruct (Z.leb_spec HUGE (Z.abs (round1Z n))); [lia | reflexivity].
Qed.

(** ** The alert floors *)

Lemma py_max_mono (s s' : float) (c : Z) :
  fle s s' -> fle (py_max s (Fin c)) (py_max s' (Fin c)).
Proof.
  unfold py_max, gtb.
  destruct s as [|[]|a], s' as [|[]|b]; cbn [ltb fle negb andb]; try tauto;
    repeat match goal with
           | |- context [?x <? ?y] => destruct (Z.ltb_spec x y)
           end; cbn [fle]; lia.
Qed.

Lemma py_max_above (s : float) (c : Z) : fle s (py_max s (Fin c)).
Proof.
  unfold py_max, gtb.
  destruct s as [|[]|a]; cbn [ltb fle negb andb]; try exact I.
  destruct (Z.ltb_spec a c); cbn [fle]; lia.
Qed.

Lemma py_max_floor (s : float) (c : Z) : fle (Fin c) (py_max s (Fin c)).
Proof.
  unfold py_max, gtb.
  destruct s as [|[]|a]; cbn [ltb fle negb andb]; try exact I; try lia.
  destruct (Z.ltb_spec a c); cbn [fle]; lia.
Qed.

Lemma floors_mono (al : AlertFlags) (s s' : float) :
  fle s s' -> fle (floors al s) (floors al s').
Proof.
  intros H. unfold floors. rewrite c70_eq, c90_eq, c98_eq.
  destruct (has_watch al), (has_warning al), (has_pds al);
    repeat apply py_max_mono; assumption.
Qed.

Lemma floors_watch (al : AlertFlags) (s : float) :
  has_watch al = true -> fle (Fin (70 * U)) (floors al s).
Proof.
  intros H. unfold floors. rewrite H, c70_eq, c90_eq, c98_eq.
  destruct (has_warning al), (has_pds al);
    repeat first [ apply py_max_floor | eapply fle_trans; [|apply py_max_above] ].
Qed.

Lemma floors_warning (al : AlertFlags) (s : float) :
  has_warning al = true -> fle (Fin (90 * U)) (floors al s).
Proof.
  intros H. unfold floors. rewrite H, c70_eq, c90_eq, c98_eq.
  destruct (has_watch al), (has_pds al);
    repeat first [ apply py_max_floor | eapply fle_trans; [|apply py_max_above] ].
Qed.

Lemma floors_pds (al : AlertFlags) (s : float) :
  has_pds al = true -> fle (Fin (98 * U)) (floors al s).
Proof.
  intros H. unfold floors. rewrite H, c70_eq, c90_eq, c98_eq.
  destruct (has_watch al), (has_warning al); apply py_max_floor.
Qed.

Lemma finish_eq (al : AlertFlags) (s : float) :
  finish al s = OK (Fin (round1Z (clipZ (floors al s)))).
Proof.
  unfold finish. fold (floors al s). rewrite clip_spec.
  apply py_round1_spec, clipZ_range.
Qed.

Lemma finish_mono (al : AlertFlags) (s s' : float) :
  fle s s' ->
  round1Z (clipZ (floors al s)) <= round1Z (clipZ (floors al s')).
Proof. intros H. apply round1Z_mono, clipZ_mono, floors_mono, H. Qed.

Lemma finish_floor (al : AlertFlags) (s : float) (c : Z) :
  0 <= c <= 100 -> round1Z (c * U) = c * U -> fle (Fin (c * U)) (floors al s) ->
  c * U <= round1Z (clipZ (floors al s)).
Proof.
  intros Hc E H. rewrite <- E at 1. apply round1Z_mono.
  apply clipZ_mono in H. cbn [clipZ] in H. pose proof U_pos. nia.
Qed.

(** ** Floats as the operations produce them *)

Lemma round_valid (a b : Z) : 0 < b -> valid (round a b).
Proof.
  intros Hb. unfold round, of_units.
  destruct (Z.leb_spec HUGE (Z.abs (round_units a b))); cbn [valid]; [exact I|].
  split; [apply round_units_idem; assumption | assumption].
Qed.

Lemma add_valid (x y : float) : valid (add x y).
Proof.
  destruct x as [|[]|a], y as [|[]|b]; cbn [add Bool.eqb valid]; try exact I.
  apply round_valid. lia.
Qed.

Lemma add_zero_r (x : float) : valid x -> add x (Fin 0) = x.
Proof.
  destruct x as [|[]|n]; cbn [add valid]; try reflexivity.
  intros [E B]. unfold round, of_units. rewrite Z.add_0_r, E.
  destruct (Z.leb_spec HUGE (Z.abs n)); [lia | reflexivity].
Qed.

Lemma fle_add_nonneg (x : float) (b : Z) : valid x -> 0 <= b -> fle x (add x (Fin b)).
Proof.
  intros V Hb. rewrite <- (add_zero_r x V) at 1.
  apply add_mono; [apply fle_refl | cbn [fle]; lia | exact I].
Qed.

Lemma float_of_int_valid (z n : Z) : float_of_int z = OK (Fin n) -> valid (Fin n).
Proof.
  intros H. apply float_of_int_inv in H. destruct H as (m & E & -> & B).
  injection E as ->. cbn [valid]. split; [apply round_units_idem; lia | assumption].
Qed.

Lemma mul_low (c a bound m : Z) :
  0 <= c -> a <= bound -> mul (Fin c) (Fin bound) = Fin m -> low (mul (Fin c) (Fin a)).
Proof.
  intros Hc Ha E. apply low_below with (Fin m); [|exact I].
  rewrite <- E. apply mul_mono_fin; assumption.
Qed.

Lemma mul_c2_0_low (t : Z) : t <= 10 * U -> low (mul c2_0 (Fin t)).
Proof.
  intros H. rewrite c2_0_eq.
  apply (mul_low (2 * U) t (10 * U) (20 * U)); [pose proof U_pos; lia | assumption |].
  vm_compute. reflexivity.
Qed.

Lemma mul_c0_2_low (p : Z) : Z.abs p < HUGE -> low (mul c0_2 (Fin p)).
Proof.
  intros H. destruct c0_2_fin as (c & E & Hc & HcU). rewrite E.
  assert (B : exists m, mul c0_2 (Fin HUGE) = Fin m).
  { eexists. vm_compute. reflexivity. }
  destruct B as [m B]. rewrite E in B.
  apply (mul_low c p HUGE m); [assumption | lia | exact B].
Qed.

Lemma mul_nonneg (c a : Z) : 0 <= c -> 0 <= a -> fle (Fin 0) (mul (Fin c) (Fin a)).
Proof.
  intros Hc Ha.
  assert (E : mul (Fin c) (Fin 0) = Fin 0).
  { cbn [mul]. rewrite Z.mul_0_r. vm_compute. reflexivity. }
  rewrite <- E. apply mul_mono_fin; assumption.
Qed.

(** ** The weights *)

Lemma weight_cases (c : option string) :
  In (dict_get CAT_WEIGHTS c 0) [0; 5; 15; 25; 40; 60; 80].
Proof.
  unfold CAT_WEIGHTS. cbn [dict_get key_eqb].
  destruct c as [s|]; [|cbn; auto].
  repeat match goal with
         | |- context [String.eqb ?a s] => destruct (String.eqb a s)
         end; cbn; auto 10.
Qed.

Lemma weight_small (c : option string) : Z.abs (dict_get CAT_WEIGHTS c 0) <= 2 ^ 53.
Proof.
  pose proof (weight_cases c) as H. cbn [In] in H.
  assert (80 <= 2 ^ 53) by (vm_compute; discriminate).
  intuition lia.
Qed.

Lemma weight_tier (c c' : option string) :
  tier_le c c' -> dict_get CAT_WEIGHTS c 0 <= dict_get CAT_WEIGHTS c' 0.
Proof.
  intros (i & j & Hi & Hj & L). revert Hi Hj.
  unfold CAT_WEIGHTS, tier. cbn [dict_get key_eqb].
  destruct c as [s|], c' as [s'|];
    rewrite ?(String.eqb_sym "TSTM"), ?(String.eqb_sym "MRGL"), ?(String.eqb_sym "SLGT"),
      ?(String.eqb_sym "ENH"), ?(String.eqb_sym "MDT"), ?(String.eqb_sym "HIGH");
    repeat match goal with
           | |- context [String.eqb ?a ?b] => destruct (String.eqb a b)
           end;
    intros Hi Hj; try discriminate;
    injection Hi as <-; injection Hj as <-; lia.
Qed.

(** ** Related outcomes *)

Lemma rel_bind {A B : Type} (R : A -> A -> Prop) (Q : B -> B -> Prop)
  (c c' : result A) (k k' : A -> result B) :
  rel_result R c c' ->
  (forall a a', R a a' -> rel_result Q (k a) (k' a')) ->
  rel_result Q (bind c k) (bind c' k').
Proof.
  intros Hc Hk b b'. destruct c as [a|], c' as [a'|]; cbn [bind]; try discriminate.
  apply Hk, Hc; reflexivity.
Qed.

Lemma OK_inj {A : Type} (a b : A) : OK a = OK b -> a = b.
Proof. intros H. injection H. auto. Qed.

Lemma rel_OK {A : Type} (R : A -> A -> Prop) (a a' : A) :
  R a a' -> rel_result R (OK a) (OK a').
Proof.
  intros H x x' E E'. apply OK_inj in E, E'. subst. exact H.
Qed.

Lemma float_of_int_rel (z z' : Z) :
  z <= z' -> rel_result (conv_rel z z') (float_of_int z) (float_of_int z').
Proof.
  intros H x x' E E'.
  destruct (float_of_int_inv _ _ E) as (n & -> & _).
  destruct (float_of_int_inv _ _ E') as (n' & -> & _).
  exists n, n'. repeat split; try assumption.
  eapply float_of_int_mono; eassumption.
Qed.

Lemma float_of_int_bound (z n bound : Z) :
  Z.abs bound <= 2 ^ 53 -> z <= bound -> float_of_int z = OK (Fin n) -> n <= bound * U.
Proof.
  intros Hb Hz E.
  eapply float_of_int_mono; [exact Hz | exact E | apply float_of_int_small, Hb].
Qed.

Lemma float_of_int_nonneg (z n : Z) : 0 <= z -> float_of_int z = OK (Fin n) -> 0 <= n.
Proof.
  intros Hz E.
  eapply (float_of_int_mono 0 z 0 n); [exact Hz | | exact E].
  apply (float_of_int_small 0). vm_compute. discriminate.
Qed.

(** ** The raw score is monotone *)

Lemma raw_score_mono (w w' : Z) (p p' : option Z) (h h' : HourlySummary) :
  Z.abs w <= 2 ^ 53 -> Z.abs w' <= 2 ^ 53 -> w <= w' -> prob_rel p p' ->
  thunder_hours h <= thunder_hours h' ->
  max_pop h <= max_pop h' ->
  max_gust_mph h <= max_gust_mph h' ->
  rel_result fle (raw_score w p h) (raw_score w' p' h').
Proof.
  intros Hw Hw' Lw Lp Lt Lpop Lg.
  destruct c1_2_fin as (k12 & E12 & P12).
  pose proof U_pos as HU.
  unfold raw_score. cbv zeta.
  rewrite (float_of_int_small w), (float_of_int_small w') by assumption.
  cbn [bind].
  apply rel_bind with (R := fle).
  { destruct p as [a|], p' as [b|]; cbn [prob_rel] in Lp; try contradiction.
    - apply rel_bind with (R := conv_rel a b); [apply float_of_int_rel; lia|].
      intros x x' (n & n' & -> & -> & L & _ & _). apply rel_OK. rewrite E12.
      eapply fle_trans; [apply add_mono_fin_l with (a' := w' * U); nia|].
      apply add_mono_fin, mul_mono_fin; assumption.
    - intros s s' E E'. apply OK_inj in E. subst s. cbn [bind] in E'.
      destruct (float_of_int_total b) as [[n' Eb]|Eb]; rewrite Eb in E';
        cbn [bind] in E'; [|discriminate].
      apply OK_inj in E'. subst s'. rewrite E12.
      assert (V : valid (Fin (w' * U))).
      { eapply float_of_int_valid, float_of_int_small; assumption. }
      eapply fle_trans with (Fin (w' * U)); [cbn [fle]; nia|].
      rewrite <- (add_zero_r _ V) at 1.
      apply add_mono_fin, mul_nonneg; [assumption|].
      apply (float_of_int_nonneg b); assumption.
    - apply rel_OK. cbn [fle]. nia. }
  intros s1 s1' H1.
  apply rel_bind
    with (R := conv_rel (Z.min (thunder_hours h) 10) (Z.min (thunder_hours h') 10));
    [apply float_of_int_rel; lia|].
  intros t t' (n & n' & -> & -> & L & _ & Et').
  assert (H2 : fle (add s1 (mul c2_0 (Fin n))) (add s1' (mul c2_0 (Fin n')))).
  { apply add_mono; [assumption | |].
    - rewrite c2_0_eq. apply mul_mono_fin; lia.
    - apply mul_c2_0_low.
      apply (float_of_int_bound (Z.min (thunder_hours h') 10)); try assumption; lia. }
  apply rel_bind with (R := fle).
  { destruct (Z.ltb_spec 35 (max_gust_mph h)); destruct (Z.ltb_spec 35 (max_gust_mph h'));
      try lia.
    - apply rel_bind
        with (R := conv_rel (Z.min (max_gust_mph h - 35) 30) (Z.min (max_gust_mph h' - 35) 30));
        [apply float_of_int_rel; lia|].
      intros g g' (m & m' & -> & -> & Lm & _ & _). apply rel_OK.
      apply add_mono; [assumption | cbn [fle]; assumption | exact I].
    - intros s s' E E'. apply OK_inj in E. subst s.
      destruct (float_of_int_total (Z.min (max_gust_mph h' - 35) 30)) as [[m' Eg]|Eg];
        rewrite Eg in E'; cbn [bind] in E'; [|discriminate].
      apply OK_inj in E'. subst s'.
      eapply fle_trans; [exact H2|].
      apply fle_add_nonneg; [apply add_valid|].
      apply (float_of_int_nonneg (Z.min (max_gust_mph h' - 35) 30)); [lia | assumption].
    - apply rel_OK. assumption. }
  intros s3 s3' H3.
  apply rel_bind with (R := conv_rel (max_pop h) (max_pop h'));
    [apply float_of_int_rel; lia|].
  intros q q' (m & m' & -> & -> & Lm & _ & Eq'). apply rel_OK.
  destruct c0_2_fin as (k02 & E02 & P02 & _).
  apply add_mono; [assumption | |].
  - rewrite E02. apply mul_mono_fin; assumption.
  - apply mul_c0_2_low. apply float_of_int_inv in Eq'.
    destruct Eq' as (x & Ex & _ & B). injection Ex as ->. exact B.
Qed.

(** ** When the score is computed *)

Lemma float_of_int_raise_range (z : Z) (e : exn) :
  float_of_int z = Raise e -> e = OverflowError /\ ~ in_float_range z.
Proof.
  intros H. split.
  - apply float_of_int_raise in H. tauto.
  - intros R. apply float_of_int_range in R. destruct R as [x Hx]. congruence.
Qed.

Lemma float_of_int_ok_range (z : Z) (x : float) :
  float_of_int z = OK x -> in_float_range z.
Proof. intros H. apply float_of_int_range. eauto. Qed.

Lemma raw_score_outcome (w : Z) (p : option Z) (h : HourlySummary) :
  Z.abs w <= 2 ^ 53 ->
  match raw_score w p h with
  | OK _ => inputs_in_range p h
  | Raise e => e = OverflowError /\ ~ inputs_in_range p h
  end.
Proof.
  intros Hw. unfold raw_score, inputs_in_range. cbv zeta.
  rewrite (float_of_int_small w) by assumption. cbn [bind].
  assert (G : forall s : float,
             exists s', (if 35 <? max_gust_mph h
                         then g <- float_of_int (Z.min (max_gust_mph h - 35) 30) ;;
                              OK (add s g)
                         else OK s) = OK s').
  { intros s. destruct (Z.ltb_spec 35 (max_gust_mph h)); [|eauto].
    rewrite float_of_int_small; [cbn [bind]; eauto|].
    assert (30 <= 2 ^ 53) by (vm_compute; discriminate). lia. }
  destruct p as [a|].
  - destruct (float_of_int a) as [x|e] eqn:Ea; cbn [bind].
    2:{ apply float_of_int_raise_range in Ea. tauto. }
    apply float_of_int_ok_range in Ea.
    destruct (float_of_int (Z.min (thunder_hours h) 10)) as [t|e] eqn:Et; cbn [bind].
    2:{ apply float_of_int_raise_range in Et. tauto. }
    apply float_of_int_ok_range in Et.
    destruct (G (add (add (Fin (w * U)) (mul c1_2 x)) (mul c2_0 t))) as [s' ->].
    cbn [bind].
    destruct (float_of_int (max_pop h)) as [q|e] eqn:Eq; cbn [bind].
    2:{ apply float_of_int_raise_range in Eq. tauto. }
    apply float_of_int_ok_range in Eq. tauto.
  - destruct (float_of_int (Z.min (thunder_hours h) 10)) as [t|e] eqn:Et; cbn [bind].
    2:{ apply float_of_int_raise_range in Et. tauto. }
    apply float_of_int_ok_range in Et.
    destruct (G (add (Fin (w * U)) (mul c2_0 t))) as [s' ->].
    cbn [bind].
    destruct (float_of_int (max_pop h)) as [q|e] eqn:Eq; cbn [bind].
    2:{ apply float_of_int_raise_range in Eq. tauto. }
    apply float_of_int_ok_range in Eq. tauto.
Qed.

Lemma score_of_inv c p a h r :
  score_of (score_likelihood c p a h) = OK r ->
  exists s, raw_score (dict_get CAT_WEIGHTS c 0) p h = OK s /\
            r = Fin (round1Z (clipZ (floors a s))).
Proof.
  rewrite score_of_unfold.
  destruct (raw_score (dict_get CAT_WEIGHTS c 0) p h) as [s|e]; cbn [bind];
    [|discriminate].
  rewrite finish_eq. intros E. exists s. split; [reflexivity|].
  apply OK_inj in E. congruence.
Qed.

Lemma score_mono c c' p p' a h h' r r' :
  dict_get CAT_WEIGHTS c 0 <= dict_get CAT_WEIGHTS c' 0 ->
  prob_rel p p' ->
  thunder_hours h <= thunder_hours h' ->
  max_pop h <= max_pop h' ->
  max_gust_mph h <= max_gust_mph h' ->
  score_of (score_likelihood c p a h) = OK r ->
  score_of (score_likelihood c' p' a h') = OK r' ->
  float_le r r'.
Proof.
  intros Lw Lp Lt Lq Lg E E'.
  apply score_of_inv in E, E'.
  destruct E as (s & Es & ->), E' as (s' & Es' & ->).
  eexists _, _. split; [reflexivity|]. split; [reflexivity|].
  apply finish_mono.
  exact (raw_score_mono _ _ p p' h h' (weight_small c) (weight_small c')
           Lw Lp Lt Lq Lg s s' Es Es').
Qed.

Lemma prob_rel_refl (p : option Z) : prob_rel p p.
Proof. destruct p; cbn [prob_rel]; [lia | exact I]. Qed.

Lemma prob_le_rel (p p' : option Z) : prob_le p p' -> prob_rel p p'.
Proof. destruct p, p'; cbn [prob_le prob_rel]; try tauto; lia. Qed.

(** ** Properties of [score_likelihood] *)

(** C1.  Whatever the categorical label, the optional percentage, the alert
    flags and the hourly summary, [score_likelihood] returns as soon as its
    integer inputs convert to floats, and the score it returns lies in
    [[0, 100]]; otherwise it raises [OverflowError]. *)
Theorem score_in_range (spc_cat : option string) (spc_prob_tor : option Z)
  (al : AlertFlags) (hs : HourlySummary) :
  match score_of (score_likelihood spc_cat spc_prob_tor al hs) with
  | OK r => between 0 100 r /\ inputs_in_range spc_prob_tor hs
  | Raise e => e = OverflowError /\ ~ inputs_in_range spc_prob_tor hs
  end.
Proof.
  rewrite score_of_unfold.
  pose proof (raw_score_outcome _ spc_prob_tor hs (weight_small spc_cat)) as H.
  destruct (raw_score (dict_get CAT_WEIGHTS spc_cat 0) spc_prob_tor hs) as [s|e];
    cbn [bind]; [|exact H].
  rewrite finish_eq. split; [|exact H].
  exists (round1Z (clipZ (floors al s))). split; [reflexivity|].
  pose proof (round1Z_range _ (clipZ_range (floors al s))). lia.
Qed.

(** C2.  Whenever [score_likelihood] returns, a true watch flag gives a score
    of at least 70, a true warning flag at least 90 and a true pds flag at
    least 98, whatever the other inputs; it returns as soon as its integer
    inputs convert to floats. *)
Theorem alert_floors (spc_cat : option string) (spc_prob_tor : option Z)
  (al : AlertFlags) (hs : HourlySummary) :
  match score_of (score_likelihood spc_cat spc_prob_tor al hs) with
  | OK r =>
      (has_watch al = true -> between 70 100 r) /\
      (has_warning al = true -> between 90 100 r) /\
      (has_pds al = true -> between 98 100 r)
  | Raise e => e = OverflowError /\ ~ inputs_in_range spc_prob_tor hs
  end.
Proof.
  rewrite score_of_unfold.
  pose proof (raw_score_outcome _ spc_prob_tor hs (weight_small spc_cat)) as H.
  destruct (raw_score (dict_get CAT_WEIGHTS spc_cat 0) spc_prob_tor hs) as [s|e];
    cbn [bind]; [|exact H].
  rewrite finish_eq.
  pose proof (round1Z_range _ (clipZ_range (floors al s))) as R.
  repeat split; intros F;
    (eexists; split; [reflexivity|]; split; [|lia]).
  - apply finish_floor; [lia | apply round1Z_70 | apply floors_watch, F].
  - apply finish_floor; [lia | apply round1Z_90 | apply floors_warning, F].
  - apply finish_floor; [lia | apply round1Z_98 | apply floors_pds, F].
Qed.

Lemma alert_floors_witness : between 98 100 (literal 980 10).
Proof.
  pose proof (alert_floors None None pds_only calm) as H.
  assert (E : score_of (score_likelihood None None pds_only calm) = OK (literal 980 10))
    by (vm_compute; reflexivity).
  rewrite E in H. destruct H as (_ & _ & H). apply H. reflexivity.
Defined.

(** C3.  With the other inputs fixed, the score does not decrease when the
    categorical tier goes up in [none < TSTM < MRGL < SLGT < ENH < MDT < HIGH],
    when a non-negative percentage grows or replaces an absent one, or when
    [thunder_hours], [max_pop] or [max_gust_mph] grows. *)
Theorem score_monotone :
  (forall c c' p al hs r r',
      tier_le c c' ->
      score_of (score_likelihood c p al hs) = OK r ->
      score_of (score_likelihood c' p al hs) = OK r' ->
      float_le r r') /\
  (forall c p p' al hs r r',
      prob_le p p' ->
      score_of (score_likelihood c p al hs) = OK r ->
      score_of (score_likelihood c p' al hs) = OK r' ->
      float_le r r') /\
  (forall c p al t t' q g r r',
      t <= t' ->
      score_of (score_likelihood c p al
                  {| thunder_hours := t; max_pop := q; max_gust_mph := g |}) = OK r ->
      score_of (score_likelihood c p al
                  {| thunder_hours := t'; max_pop := q; max_gust_mph := g |}) = OK r' ->
      float_le r r') /\
  (forall c p al t q q' g r r',
      q <= q' ->
      score_of (score_likelihood c p al
                  {| thunder_hours := t; max_pop := q; max_gust_mph := g |}) = OK r ->
      score_of (score_likelihood c p al
                  {| thunder_hours := t; max_pop := q'; max_gust_mph := g |}) = OK r' ->
      float_le r r') /\
  (forall c p al t q g g' r r',
      g <= g' ->
      score_of (score_likelihood c p al
                  {| thunder_hours := t; max_pop := q; max_gust_mph := g |}) = OK r ->
      score_of (score_likelihood c p al
                  {| thunder_hours := t; max_pop := q; max_gust_mph := g' |}) = OK r' ->
      float_le r r').
Proof.
  repeat split; intros.
  - eapply score_mono; try eassumption; try lia;
      [apply weight_tier; assumption | apply prob_rel_refl].
  - eapply score_mono; try eassumption; try lia. apply prob_le_rel; assumption.
  - eapply score_mono; try eassumption; cbn; try lia. apply prob_rel_refl.
  - eapply score_mono; try eassumption; cbn; try lia. apply prob_rel_refl.
  - eapply score_mono; try eassumption; cbn; try lia. apply prob_rel_refl.
Qed.

Lemma score_monotone_witness :
  float_le (literal 600 10) (literal 750 10) /\
  float_le (literal 480 10) (literal 600 10) /\
  float_le (literal 600 10) (literal 740 10) /\
  float_le (literal 600 10) (literal 680 10) /\
  float_le (literal 600 10) (literal 850 10).
Proof.
  destruct score_monotone as (H1 & H2 & H3 & H4 & H5).
  split; [|split; [|split; [|split]]].
  - apply (H1 (Some "SLGT") (Some "ENH") (Some 10) no_alerts
             {| thunder_hours := 3; max_pop := 60; max_gust_mph := 40 |}).
    + exists 3%nat, 4%nat. repeat split. apply le_S, le_n.
    + vm_compute. reflexivity.
    + vm_compute. reflexivity.
  - apply (H2 (Some "SLGT") None (Some 10) no_alerts
             {| thunder_hours := 3; max_pop := 60; max_gust_mph := 40 |}).
    + cbn. lia.
    + vm_compute. reflexivity.
    + vm_compute. reflexivity.
  - apply (H3 (Some "SLGT") (Some 10) no_alerts 3 12 60 40).
    + lia.
    + vm_compute. reflexivity.
    + vm_compute. reflexivity.
  - apply (H4 (Some "SLGT") (Some 10) no_alerts 3 60 100 40).
    + lia.
    + vm_compute. reflexivity.
    + vm_compute. reflexivity.
  - apply (H5 (Some "SLGT") (Some 10) no_alerts 3 60 40 90).
    + lia.
    + vm_compute. reflexivity.
    + vm_compute. reflexivity.
Defined.

(** C9.  With label SLGT, percentage 10, three thunder hours, a 40 mph gust,
    60 percent precipitation and no alert the score is exactly 60.0; with the
    warning flag set it is exactly 90.0. *)
Theorem end_to_end_scenarios :
  score_of (score_likelihood (Some "SLGT") (Some 10) no_alerts
              {| thunder_hours := 3; max_pop := 60; max_gust_mph := 40 |})
  = OK (literal 600 10) /\
  score_of (score_likelihood (Some "SLGT") (Some 10)
              {| has_watch := false; has_warning := true; has_pds := false |}
              {| thunder_hours := 3; max_pop := 60; max_gust_mph := 40 |})
  = OK (literal 900 10).
Proof. split; vm_compute; reflexivity. Qed.

(** C10.  A label outside the vocabulary raises nothing of its own and
    weighs 0: the outcome of [score_likelihood], score or exception, is the
    one of the same call with no label. *)
Theorem unknown_label_scores_as_none (s : string) (spc_prob_tor : option Z)
  (al : AlertFlags) (hs : HourlySummary) :
  ~ In s ["TSTM"; "MRGL"; "SLGT"; "ENH"; "MDT"; "HIGH"] ->
  score_of (score_likelihood (Some s) spc_prob_tor al hs) =
  score_of (score_likelihood None spc_prob_tor al hs).
Proof.
  intros H. rewrite !score_of_unfold. f_equal.
  unfold CAT_WEIGHTS. cbn [dict_get key_eqb].
  cbn [In] in H.
  repeat match goal with
         | |- context [String.eqb ?a s] =>
             destruct (String.eqb_spec a s); [exfalso; tauto|]
         end.
  reflexivity.
Qed.

Lemma unknown_label_scores_as_none_witness :
  score_of (score_likelihood (Some "DERECHO") (Some 10) no_alerts calm) =
  score_of (score_likelihood None (Some 10) no_alerts calm).
Proof.
  apply unknown_label_scores_as_none.
  cbn [In]. intros [H|[H|[H|[H|[H|[H|H]]]]]]; try discriminate H. exact H.
Defined.

(** ** The matcher on the program's patterns *)

Lemma rmatch_lit_ci {A : Type} (w s : string) (g : option string)
  (k : string -> option string -> option A) :
  rmatch (lit_ci w) s g k =
  match strip_prefix_ci w s with
  | Some rest => k rest g
  | None => None
  end.
Proof.
  revert s. induction w as [|a w IH]; intros s; cbn [lit_ci rmatch strip_prefix_ci].
  - reflexivity.
  - destruct s as [|c s]; [reflexivity|].
    destruct (Ascii.eqb (lower_char c) (lower_char a)); [apply IH | reflexivity].
Qed.

Lemma star_loop_chr {A : Type} (p : ascii -> bool) (g : option string)
  (k : string -> option string -> option A) (n : nat) (s : string) :
  (String.length s < n)%nat ->
  star_loop (rmatch (Chr p)) k n s g = star_chr p s g k.
Proof.
  revert s. induction n as [|n IH]; intros t Ht; [lia|].
  destruct t as [|c t]; cbn [star_loop rmatch star_chr]; [reflexivity|].
  destruct (p c); [|reflexivity].
  cbn [String.length] in *.
  replace (String.length t <? S (String.length t))%nat with true
    by (symmetry; apply Nat.ltb_lt; lia).
  rewrite IH by lia. reflexivity.
Qed.

Lemma rmatch_star_chr {A : Type} (p : ascii -> bool) (s : string) (g : option string)
  (k : string -> option string -> option A) :
  rmatch (Star (Chr p)) s g k = star_chr p s g k.
Proof. cbn [rmatch]. apply star_loop_chr. lia. Qed.

Lemma star_chr_total {A : Type} (p : ascii -> bool) (s : string) (g : option string)
  (k : string -> option string -> option A) :
  (forall t, k t g <> None) -> star_chr p s g k = k (drop_while p s) g.
Proof.
  intros Hk. induction s as [|c s IH]; cbn [star_chr drop_while]; [reflexivity|].
  destruct (p c); [|reflexivity].
  rewrite IH. destruct (k (drop_while p s) g) eqn:E; [reflexivity|].
  exfalso. exact (Hk _ E).
Qed.

Lemma star_chr_commit {A : Type} (p : ascii -> bool) (s : string) (g : option string)
  (k : string -> option string -> option A) :
  (forall c t, p c = true -> k (String c t) g = None) ->
  star_chr p s g k = k (drop_while p s) g.
Proof.
  intros Hk. induction s as [|c s IH]; cbn [star_chr drop_while]; [reflexivity|].
  destruct (p c) eqn:E; [|reflexivity].
  rewrite IH, (Hk c s E). destruct (k (drop_while p s) g); reflexivity.
Qed.

Lemma length_drop_while (p : ascii -> bool) (s : string) :
  (String.length (drop_while p s) <= String.length s)%nat.
Proof.
  induction s as [|c s IH]; cbn [drop_while String.length]; [lia|].
  destruct (p c); cbn [String.length]; lia.
Qed.

Lemma take_drop_while (p : ascii -> bool) (s : string) :
  take (String.length s - String.length (drop_while p s)) s = take_while p s.
Proof.
  induction s as [|c s IH]; cbn [drop_while take_while String.length]; [reflexivity|].
  destruct (p c).
  - pose proof (length_drop_while p s).
    replace (S (String.length s) - String.length (drop_while p s))%nat
      with (S (String.length s - String.length (drop_while p s))) by lia.
    cbn [take]. rewrite IH. reflexivity.
  - cbn [String.length]. rewrite Nat.sub_diag. reflexivity.
Qed.

Lemma take_run (p : ascii -> bool) (c : ascii) (s : string) :
  take (String.length (String c s) - String.length (drop_while p s)) (String c s)
  = String c (take_while p s).
Proof.
  pose proof (length_drop_while p s). cbn [String.length].
  replace (S (String.length s) - String.length (drop_while p s))%nat
    with (S (String.length s - String.length (drop_while p s))) by lia.
  cbn [take]. rewrite take_drop_while. reflexivity.
Qed.

Lemma rmatch_seq {A : Type} (r1 r2 : regex) (s : string) (g : option string)
  (k : string -> option string -> option A) :
  rmatch (Seq r1 r2) s g k = rmatch r1 s g (fun s' g' => rmatch r2 s' g' k).
Proof. reflexivity. Qed.

Lemma rmatch_alt {A : Type} (r1 r2 : regex) (s : string) (g : option string)
  (k : string -> option string -> option A) :
  rmatch (Alt r1 r2) s g k =
  match rmatch r1 s g k with
  | Some x => Some x
  | None => rmatch r2 s g k
  end.
Proof. reflexivity. Qed.

Lemma rmatch_group {A : Type} (r : regex) (s : string) (g : option string)
  (k : string -> option string -> option A) :
  rmatch (Group r) s g k =
  rmatch r s g (fun s' _ => k s' (Some (take (String.length s - String.length s') s))).
Proof. reflexivity. Qed.

Lemma rmatch_chr {A : Type} (p : ascii -> bool) (s : string) (g : option string)
  (k : string -> option string -> option A) :
  rmatch (Chr p) s g k =
  match s with
  | String c s' => if p c then k s' g else None
  | EmptyString => None
  end.
Proof. reflexivity. Qed.

(** [(\d+)] at the start of [s]. *)
Lemma rmatch_digits (s : string) :
  rmatch digits_re s None (fun _ g => Some g) =
  match s with
  | String c s' => if is_digit c then Some (Some (String c (take_while is_digit s'))) else None
  | EmptyString => None
  end.
Proof.
  unfold digits_re, plus. rewrite rmatch_group, rmatch_seq, rmatch_chr.
  destruct s as [|c s]; [reflexivity|].
  destruct (is_digit c); [|reflexivity].
  rewrite rmatch_star_chr, star_chr_total by discriminate.
  rewrite take_run. reflexivity.
Qed.

Lemma search_digits (s : string) :
  re_search digits_re s = option_map Some (first_digits s).
Proof.
  induction s as [|c s IH]; unfold re_search; fold re_search;
    rewrite rmatch_digits; [reflexivity|].
  cbn [first_digits]. destruct (is_digit c); [reflexivity | exact IH].
Qed.

Lemma ascii_eqb_sym (a b : ascii) : Ascii.eqb a b = Ascii.eqb b a.
Proof.
  destruct (Ascii.eqb_spec a b) as [->|N].
  - symmetry. apply Ascii.eqb_refl.
  - symmetry. apply Ascii.eqb_neq. congruence.
Qed.

Lemma strip_prefix_ci_starts (w s : string) :
  is_some (strip_prefix_ci w s) = starts_with (lower w) (lower s).
Proof.
  revert s. induction w as [|a w IH]; intros s; [destruct s; reflexivity|].
  destruct s as [|c s]; [reflexivity|].
  cbn [strip_prefix_ci lower str_map starts_with]. fold (lower w) (lower s).
  rewrite (ascii_eqb_sym (lower_char a)).
  destruct (Ascii.eqb (lower_char c) (lower_char a)); [apply IH | reflexivity].
Qed.

Lemma contains_cons (w : string) (c : ascii) (s : string) :
  contains w (String c s) = starts_with w (String c s) || contains w s.
Proof. reflexivity. Qed.

(** [(thunder|t-storm|storm)] with [re.I] at the start of [s]. *)
Lemma rmatch_thunder (s : string) :
  is_some (rmatch thunder_re s None (fun _ g => Some g)) =
  starts_with "thunder" (lower s) || starts_with "t-storm" (lower s) ||
  starts_with "storm" (lower s).
Proof.
  unfold thunder_re.
  rewrite rmatch_group, !rmatch_alt, !rmatch_lit_ci.
  change "thunder" with (lower "thunder") at 2.
  change "t-storm" with (lower "t-storm") at 2.
  change "storm" with (lower "storm") at 4.
  rewrite <- !strip_prefix_ci_starts.
  destruct (strip_prefix_ci "thunder" s); [reflexivity|].
  destruct (strip_prefix_ci "t-storm" s); [reflexivity|].
  destruct (strip_prefix_ci "storm" s); reflexivity.
Qed.

(** The thunder pattern finds a match exactly in the descriptions that
    mention thunder. *)
Lemma search_thunder (s : string) :
  is_some (re_search thunder_re s) = mentions_thunder s.
Proof.
  unfold mentions_thunder.
  induction s as [|c s IH]; unfold re_search; fold re_search.
  - reflexivity.
  - pose proof (rmatch_thunder (String c s)) as H.
    destruct (rmatch thunder_re (String c s) None (fun _ g => Some g)) as [g|].
    + cbn [is_some] in *. cbn [lower str_map] in *. fold (lower s) in *.
      rewrite !contains_cons.
      destruct (starts_with "thunder" _), (starts_with "t-storm" _),
        (starts_with "storm" _); try discriminate H; cbn; try reflexivity;
        rewrite ?orb_true_r; reflexivity.
    + cbn [is_some] in H. rewrite IH. cbn [lower str_map] in *. fold (lower s) in *.
      rewrite !contains_cons.
      destruct (starts_with "thunder" _), (starts_with "t-storm" _),
        (starts_with "storm" _); try discriminate H. reflexivity.
Qed.

Lemma space_not_pct (c : ascii) : is_space c = true -> Ascii.eqb "%" c = false.
Proof.
  intros H. destruct (Ascii.eqb_spec "%" c) as [<-|]; [|reflexivity].
  vm_compute in H. discriminate.
Qed.

Lemma digit_not_space (c : ascii) : is_digit c = true -> is_space c = false.
Proof.
  unfold is_digit, is_space. intros H.
  apply andb_true_iff in H. destruct H as [H1 H2].
  apply Z.leb_le in H1. apply Z.leb_le in H2.
  destruct (Z.leb_spec 9 (code c)), (Z.leb_spec (code c) 13),
    (Z.leb_spec 28 (code c)), (Z.leb_spec (code c) 32); cbn; try reflexivity; lia.
Qed.

Lemma digit_not_pct (c : ascii) : is_digit c = true -> Ascii.eqb "%" c = false.
Proof.
  intros H. destruct (Ascii.eqb_spec "%" c) as [<-|]; [|reflexivity].
  vm_compute in H. discriminate.
Qed.

(** [(\d+)\s*%] at the start of [s]. *)
Lemma rmatch_pct (s : string) :
  rmatch pct_re s None (fun _ g => Some g) = option_map Some (pct_at s).
Proof.
  unfold pct_re, plus.
  rewrite rmatch_seq, rmatch_group, rmatch_seq, rmatch_chr.
  destruct s as [|c s]; [reflexivity|]. cbn [pct_at].
  destruct (is_digit c) eqn:Dc; [|reflexivity].
  rewrite rmatch_star_chr, star_chr_commit.
  - rewrite rmatch_seq, rmatch_star_chr, star_chr_commit.
    + rewrite rmatch_chr, take_run.
      destruct (drop_while is_space (drop_while is_digit s)) as [|d t]; [reflexivity|].
      rewrite (ascii_eqb_sym d). destruct (Ascii.eqb "%" d); reflexivity.
    + intros d t Hd. rewrite rmatch_chr, (space_not_pct d Hd). reflexivity.
  - intros d t Hd. rewrite rmatch_seq, rmatch_star_chr.
    cbn [star_chr]. rewrite (digit_not_space d Hd), rmatch_chr, (digit_not_pct d Hd).
    reflexivity.
Qed.

Lemma search_pct (s : string) :
  re_search pct_re s = option_map Some (find_pct s).
Proof.
  induction s as [|c s IH]; unfold re_search, find_pct; fold re_search; fold find_pct;
    rewrite rmatch_pct.
  - reflexivity.
  - destruct (pct_at (String c s)); [reflexivity | exact IH].
Qed.

(** ** [int] of a run of digits *)

Lemma rev_onto_rev_onto (s a b : string) :
  rev_onto (rev_onto s a) b = rev_onto a (s ++ b).
Proof.
  revert a b. induction s as [|c s IH]; intros a b; cbn [rev_onto append].
  - reflexivity.
  - rewrite IH. reflexivity.
Qed.

Lemma append_empty_r (s : string) : s ++ "" = s.
Proof. induction s as [|c s IH]; cbn [append]; [reflexivity | rewrite IH; reflexivity]. Qed.

Lemma all_chars_rev_onto (p : ascii -> bool) (s a : string) :
  all_chars p (rev_onto s a) = all_chars p s && all_chars p a.
Proof.
  revert a. induction s as [|c s IH]; intros a; cbn [rev_onto all_chars].
  - reflexivity.
  - rewrite IH. cbn [all_chars]. destruct (p c), (all_chars p s); reflexivity.
Qed.

Lemma digit_not_int_space (c : ascii) : is_digit c = true -> is_int_space c = false.
Proof.
  unfold is_digit, is_int_space. intros H.
  apply andb_true_iff in H. destruct H as [H1 H2].
  apply Z.leb_le in H1. apply Z.leb_le in H2.
  destruct (Z.leb_spec 9 (code c)), (Z.leb_spec (code c) 13),
    (Z.eqb_spec (code c) 32); cbn; try reflexivity; lia.
Qed.

Lemma lstrip_digits (s : string) : all_chars is_digit s = true -> lstrip s = s.
Proof.
  destruct s as [|c s]; [reflexivity|]. cbn [all_chars lstrip]. intros H.
  apply andb_true_iff in H. destruct H as [H _].
  rewrite (digit_not_int_space c H). reflexivity.
Qed.

Lemma strip_digits (s : string) : all_chars is_digit s = true -> strip s = s.
Proof.
  intros H. unfold strip. rewrite (lstrip_digits s H).
  rewrite lstrip_digits.
  - rewrite rev_onto_rev_onto. cbn [rev_onto]. apply append_empty_r.
  - rewrite all_chars_rev_onto, H. reflexivity.
Qed.

Lemma int_digits_all (s : string) (acc n : Z) :
  all_chars is_digit s = true ->
  int_digits s acc n = Some (decimal s acc, n + Z.of_nat (String.length s)).
Proof.
  revert acc n. induction s as [|c s IH]; intros acc n H; cbn [int_digits decimal].
  - cbn [String.length]. do 2 f_equal. lia.
  - cbn [all_chars] in H. apply andb_true_iff in H. destruct H as [Hc Hs].
    rewrite Hc, IH by assumption. cbn [String.length]. do 2 f_equal. lia.
Qed.

Lemma int_of_str_digits (c : ascii) (s : string) :
  is_digit c = true -> all_chars is_digit s = true ->
  int_of_str (String c s) = digits_int (String c s).
Proof.
  intros Hc Hs. unfold int_of_str.
  rewrite strip_digits by (cbn [all_chars]; rewrite Hc, Hs; reflexivity).
  assert (Em : Ascii.eqb c "-" = false).
  { destruct (Ascii.eqb_spec c "-") as [->|]; [vm_compute in Hc; discriminate | reflexivity]. }
  assert (Ep : Ascii.eqb c "+" = false).
  { destruct (Ascii.eqb_spec c "+") as [->|]; [vm_compute in Hc; discriminate | reflexivity]. }
  rewrite Em, Ep. unfold int_body. rewrite Hc, int_digits_all by assumption.
  unfold digits_int. cbn [String.length decimal].
  replace (10 * 0 + digit_val c) with (digit_val c) by lia.
  replace (1 + Z.of_nat (String.length s)) with (Z.of_nat (S (String.length s))) by lia.
  destruct (Z.of_nat (S (String.length s)) <=? INT_MAX_STR_DIGITS); reflexivity.
Qed.

Lemma all_chars_take_while (p : ascii -> bool) (s : string) :
  all_chars p (take_while p s) = true.
Proof.
  induction s as [|c s IH]; cbn [take_while]; [reflexivity|].
  destruct (p c) eqn:E; [cbn [all_chars]; rewrite E, IH|]; reflexivity.
Qed.

Lemma first_digits_int (s ds : string) :
  first_digits s = Some ds -> int_of_str ds = digits_int ds.
Proof.
  induction s as [|c s IH]; cbn [first_digits]; [discriminate|].
  destruct (is_digit c) eqn:E; [|exact IH].
  intros [= <-]. apply int_of_str_digits; [exact E | apply all_chars_take_while].
Qed.

Lemma find_pct_int (s ds : string) :
  find_pct s = Some ds -> int_of_str ds = digits_int ds.
Proof.
  induction s as [|c s IH]; unfold find_pct; fold find_pct.
  - cbn [pct_at]. discriminate.
  - destruct (pct_at (String c s)) as [x|] eqn:E; [|exact IH].
    intros [= <-]. cbn [pct_at] in E.
    destruct (is_digit c) eqn:D; [|discriminate].
    destruct (drop_while is_space (drop_while is_digit s)) as [|d t]; [discriminate|].
    destruct (Ascii.eqb d "%"); [|discriminate].
    injection E as <-. apply int_of_str_digits; [exact D | apply all_chars_take_while].
Qed.

(** ** [safe_get] *)

Lemma safe_get_path (cur : pyval) (keys : list string) (default : pyval) :
  safe_get cur keys default =
  match path cur keys with
  | Some v => v
  | None => default
  end.
Proof.
  revert cur. induction keys as [|k keys IH]; intros cur; cbn [safe_get path].
  - reflexivity.
  - destruct cur; try reflexivity.
    destruct (lookup d k); [apply IH | reflexivity].
Qed.

(** ** One pass of the loop of [summarize_hourly] *)

Lemma thunder_count (acc : Z) (s : string) :
  match re_search thunder_re s with
  | Some _ => acc + 1
  | None => acc
  end = acc + (if mentions_thunder s then 1 else 0).
Proof.
  rewrite <- search_thunder. destruct (re_search thunder_re s); cbn [is_some]; lia.
Qed.

Lemma pop_spec (p : dict) :
  match py_int (py_or (safe_get (PDict p) ["probabilityOfPrecipitation"; "value"] (PInt 0))
                  (PInt 0)) with
  | OK z => Z.max 0 (Z.min 100 z)
  | Raise _ => 0
  end = pop_percent p.
Proof.
  unfold pop_percent. rewrite safe_get_path.
  destruct (path (PDict p) ["probabilityOfPrecipitation"; "value"]) as [v|];
    [|reflexivity].
  destruct v as [|b|z|x|s|l|d]; unfold py_or; cbn [truthy py_int].
  - reflexivity.
  - destruct b; reflexivity.
  - destruct (Z.eqb_spec z 0) as [->|]; reflexivity.
  - destruct x as [|sg|n]; try reflexivity.
    destruct (Z.eqb_spec n 0) as [->|]; reflexivity.
  - destruct (String.eqb_spec s "") as [->|]; reflexivity.
  - destruct l; reflexivity.
  - destruct d; reflexivity.
Qed.

Lemma int_of_float_one : (x <- float_of_int 1 ;; int_of_float x) = OK 1.
Proof. vm_compute. reflexivity. Qed.

Lemma int_of_float_zero : (x <- float_of_int 0 ;; int_of_float x) = OK 0.
Proof. vm_compute. reflexivity. Qed.

Lemma gust_spec (p : dict) :
  (gust_mph <-
     match get p "windGust" PNone with
     | PStr s =>
         match re_search digits_re s with
         | Some g => z <- int_of_group g ;; OK (PInt z)
         | None => OK (PInt 0)
         end
     | PBool _ | PInt _ | PFloat _ =>
         x <- py_float (get p "windGust" PNone) ;; OK (PFloat x)
     | _ => OK (PInt 0)
     end ;;
   py_int gust_mph) = gust_reading p.
Proof.
  unfold gust_reading, get.
  destruct (lookup p "windGust") as [v|]; [|reflexivity].
  destruct v as [|b|z|x|s|l|d]; try reflexivity.
  - destruct b; cbn [py_float].
    + exact int_of_float_one.
    + exact int_of_float_zero.
  - cbn [py_float]. destruct (float_of_int z); reflexivity.
  - rewrite search_digits.
    destruct (first_digits s) as [ds|] eqn:E; cbn [option_map]; [|reflexivity].
    cbn [int_of_group]. rewrite (first_digits_int s ds E).
    destruct (digits_int ds); reflexivity.
Qed.

Lemma description_spec (p : dict) :
  search_val thunder_re (py_or (get p "shortForecast" (PStr "")) (PStr "")) =
  (d <- description p ;; OK (re_search thunder_re d)).
Proof.
  unfold description, get, py_or.
  destruct (lookup p "shortForecast") as [v|]; [|reflexivity].
  destruct v as [|b|z|x|s|l|d]; cbn [truthy].
  - reflexivity.
  - destruct b; reflexivity.
  - destruct (z =? 0); reflexivity.
  - destruct x as [|sg|n]; try reflexivity. destruct (n =? 0); reflexivity.
  - destruct (String.eqb_spec s "") as [->|]; reflexivity.
  - destruct l; reflexivity.
  - destruct d; reflexivity.
Qed.

(** The loop body adds the three readings of the period to the summary. *)
Lemma summarize_period_spec (acc : HourlySummary) (p : dict) :
  summarize_period acc p =
  (d <- description p ;;
   g <- gust_reading p ;;
   OK {| thunder_hours := thunder_hours acc + (if mentions_thunder d then 1 else 0);
         max_pop := Z.max (max_pop acc) (pop_percent p);
         max_gust_mph := Z.max (max_gust_mph acc) g |}).
Proof.
  unfold summarize_period. rewrite description_spec.
  destruct (description p) as [d|e]; cbn [bind]; [|reflexivity].
  rewrite thunder_count, pop_spec.
  rewrite <- gust_spec.
  destruct (match get p "windGust" PNone with
            | PStr s =>
                match re_search digits_re s with
                | Some g => z <- int_of_group g ;; OK (PInt z)
                | None => OK (PInt 0)
                end
            | PBool _ | PInt _ | PFloat _ =>
                x <- py_float (get p "windGust" PNone) ;; OK (PFloat x)
            | _ => OK (PInt 0)
            end) as [v|e]; cbn [bind]; [|reflexivity].
  destruct (py_int v); reflexivity.
Qed.

(** ** The whole loop *)

Lemma summarize_loop (ps : list dict) (acc : HourlySummary) :
  0 <= max_pop acc -> 0 <= max_gust_mph acc ->
  match for_each summarize_period ps acc with
  | OK r =>
      forallb readable ps = true /\
      thunder_hours r = thunder_hours acc + Z.of_nat (List.length (filter thunder_period ps)) /\
      max_pop r = Z.max (max_pop acc) (max0 (map pop_percent ps)) /\
      max_gust_mph r = Z.max (max_gust_mph acc) (max0 (map gust_mph ps))
  | Raise _ => forallb readable ps = false
  end.
Proof.
  revert acc. induction ps as [|p ps IH]; intros acc Hp Hg.
  - cbn [for_each forallb filter map max0 fold_right List.length].
    repeat split; lia.
  - cbn [for_each]. rewrite summarize_period_spec.
    cbn [forallb filter map].
    assert (Er : readable p = match description p, gust_reading p with
                              | OK _, OK _ => true | _, _ => false end) by reflexivity.
    assert (Et : thunder_period p = match description p with
                                    | OK d => mentions_thunder d | Raise _ => false end)
      by reflexivity.
    assert (Eg : gust_mph p = match gust_reading p with
                              | OK g => g | Raise _ => 0 end) by reflexivity.
    destruct (description p) as [d|e]; cbn [bind];
      [|rewrite Er; reflexivity].
    destruct (gust_reading p) as [g|e]; cbn [bind];
      [|rewrite Er; reflexivity].
    rewrite Er, Et, Eg. clear Er Et Eg.
    specialize (IH {| thunder_hours := thunder_hours acc + (if mentions_thunder d then 1 else 0);
                      max_pop := Z.max (max_pop acc) (pop_percent p);
                      max_gust_mph := Z.max (max_gust_mph acc) g |}).
    cbn [thunder_hours max_pop max_gust_mph] in IH.
    specialize (IH ltac:(lia) ltac:(lia)).
    destruct (for_each summarize_period ps _) as [r|e]; [|exact IH].
    destruct IH as (R & T & P & G). cbn [andb]. split; [exact R|].
    unfold max0 in *. cbn [fold_right].
    destruct (mentions_thunder d); cbn [List.length]; repeat split; lia.
Qed.

Lemma max0_nonneg (l : list Z) : 0 <= max0 l.
Proof. induction l as [|x l IH]; unfold max0 in *; cbn [fold_right]; lia. Qed.

Lemma max0_upper (l : list Z) (b : Z) :
  0 <= b -> Forall (fun x => x <= b) l -> max0 l <= b.
Proof.
  intros Hb H. induction H as [|x l Hx _ IH]; unfold max0 in *; cbn [fold_right]; lia.
Qed.

Lemma clamp_percent_range (z : Z) : 0 <= clamp_percent z <= 100.
Proof. unfold clamp_percent. lia. Qed.

Lemma pop_percent_range (p : dict) : 0 <= pop_percent p <= 100.
Proof.
  unfold pop_percent.
  destruct (path (PDict p) ["probabilityOfPrecipitation"; "value"]) as [v|]; [|lia].
  destruct v as [|b|z|x|s|l|d]; try lia.
  - destruct b; lia.
  - apply clamp_percent_range.
  - destruct x as [|sg|n]; try lia. apply clamp_percent_range.
  - destruct (int_of_str s); [apply clamp_percent_range | lia].
Qed.

(** ** Properties of [summarize_hourly] *)

(** C4, as stated, fails: for one hour with precipitation probability 45.5
    and gust -5 the function returns [max_pop = 45] and [max_gust_mph = 0],
    neither the clamped value 45.5 nor the maximum -5 of the gusts. *)
Lemma summarize_hourly_not_as_stated :
  summarize_hourly fractional_pop_negative_gust
  = OK {| thunder_hours := 0; max_pop := 45; max_gust_mph := 0 |} /\
  45 * U <> maximum (map stated_pop_units fractional_pop_negative_gust) /\
  0 <> maximum (map stated_gust fractional_pop_negative_gust) /\
  ~ stated_summary fractional_pop_negative_gust
      {| thunder_hours := 0; max_pop := 45; max_gust_mph := 0 |}.
Proof.
  assert (P : 45 * U <> maximum (map stated_pop_units fractional_pop_negative_gust)).
  { vm_compute. discriminate. }
  assert (G : 0 <> maximum (map stated_gust fractional_pop_negative_gust)).
  { vm_compute. discriminate. }
  split; [vm_compute; reflexivity|]. split; [exact P|]. split; [exact G|].
  intros (_ & _ & H). exact (G H).
Qed.

(** C4, amended.  [summarize_hourly] returns exactly on the sequences whose
    periods are all readable, the empty one included, which yields
    [(0, 0, 0)].  It then returns: the number of periods whose short
    description, lowercased, contains "thunder", "t-storm" or "storm"; the
    largest precipitation probability, each value converted by [int] and
    then clamped to [[0, 100]], 0 when absent, null or not convertible; and
    the largest of 0 and the gusts, where a text gust is its first run of
    digits, a number is converted to a float and truncated toward zero, and
    any other value counts 0. *)
Theorem summarize_hourly_spec :
  summarize_hourly [] = OK {| thunder_hours := 0; max_pop := 0; max_gust_mph := 0 |} /\
  forall ps : list dict,
    match summarize_hourly ps with
    | OK r =>
        forallb readable ps = true /\
        thunder_hours r = Z.of_nat (List.length (filter thunder_period ps)) /\
        max_pop r = max0 (map pop_percent ps) /\
        max_gust_mph r = max0 (map gust_mph ps)
    | Raise _ => forallb readable ps = false
    end.
Proof.
  split; [reflexivity|]. intros ps. unfold summarize_hourly.
  pose proof (summarize_loop ps {| thunder_hours := 0; max_pop := 0; max_gust_mph := 0 |})
    as H.
  cbn [thunder_hours max_pop max_gust_mph] in H.
  specialize (H ltac:(lia) ltac:(lia)).
  destruct (for_each summarize_period ps _) as [r|e]; [|exact H].
  destruct H as (R & T & P & G).
  pose proof (max0_nonneg (map pop_percent ps)).
  pose proof (max0_nonneg (map gust_mph ps)).
  repeat split; [exact R | lia | lia | lia].
Qed.

(** C5.  Whatever the periods hold, a summary that [summarize_hourly]
    returns has [thunder_hours >= 0], [0 <= max_pop <= 100] and
    [max_gust_mph >= 0]; it returns on every sequence of readable periods. *)
Theorem summary_bounds (ps : list dict) :
  match summarize_hourly ps with
  | OK r =>
      forallb readable ps = true /\
      0 <= thunder_hours r /\ 0 <= max_pop r <= 100 /\ 0 <= max_gust_mph r
  | Raise _ => forallb readable ps = false
  end.
Proof.
  unfold summarize_hourly.
  pose proof (summarize_loop ps {| thunder_hours := 0; max_pop := 0; max_gust_mph := 0 |})
    as H.
  cbn [thunder_hours max_pop max_gust_mph] in H.
  specialize (H ltac:(lia) ltac:(lia)).
  destruct (for_each summarize_period ps _) as [r|e]; [|exact H].
  destruct H as (R & T & P & G).
  pose proof (max0_nonneg (map pop_percent ps)).
  pose proof (max0_nonneg (map gust_mph ps)).
  assert (max0 (map pop_percent ps) <= 100).
  { apply max0_upper; [lia|]. apply Forall_map, Forall_forall.
    intros p _. apply pop_percent_range. }
  repeat split; try exact R; lia.
Qed.

(** ** Properties of [classify_tornado_alerts] *)

Lemma classify_loop (str_other : pyval -> string) (fs : list pyval) (acc : AlertFlags) :
  has_watch (fold_left (classify_alert str_other) fs acc)
  = has_watch acc || existsb (watches str_other) fs /\
  has_warning (fold_left (classify_alert str_other) fs acc)
  = has_warning acc || existsb (warns str_other) fs /\
  has_pds (fold_left (classify_alert str_other) fs acc)
  = has_pds acc || existsb (is_pds str_other) fs.
Proof.
  revert acc. induction fs as [|f fs IH]; intros acc; cbn [fold_left existsb].
  - rewrite !orb_false_r. auto.
  - destruct (IH (classify_alert str_other acc f)) as (W & N & P).
    rewrite W, N, P. unfold classify_alert. cbn [has_watch has_warning has_pds].
    unfold watches, warns, is_pds.
    destruct (contains "tornado warning" _), (contains "tornado watch" _),
      (contains "particularly dangerous situation" _ || contains "pds" _),
      (has_watch acc), (has_warning acc), (has_pds acc); cbn; auto.
Qed.

Lemma classify_flags (str_other : pyval -> string) (fs : list pyval) :
  has_watch (classify_tornado_alerts str_other fs) = existsb (watches str_other) fs /\
  has_warning (classify_tornado_alerts str_other fs) = existsb (warns str_other) fs /\
  has_pds (classify_tornado_alerts str_other fs) = existsb (is_pds str_other) fs.
Proof.
  unfold classify_tornado_alerts.
  destruct (classify_loop str_other fs
              {| has_watch := false; has_warning := false; has_pds := false |})
    as (W & N & P).
  rewrite W, N, P. auto.
Qed.

(** C8.  The warning flag is set exactly when the lowercased text of some
    alert contains "tornado warning", the watch flag exactly when some text
    contains "tornado watch", the pds flag exactly when some text contains
    "particularly dangerous situation" or "pds".  No alert gives three
    false flags, and a flag set by the alerts of a list stays set when
    alerts are added before or after them. *)
Theorem classify_tornado_alerts_spec (str_other : pyval -> string) (features : list pyval) :
  let flags := classify_tornado_alerts str_other in
  let text := alert_text str_other in
  (has_warning (flags features) = true <->
   exists f, In f features /\ contains "tornado warning" (text f) = true) /\
  (has_watch (flags features) = true <->
   exists f, In f features /\ contains "tornado watch" (text f) = true) /\
  (has_pds (flags features) = true <->
   exists f, In f features /\
             (contains "particularly dangerous situation" (text f) = true \/
              contains "pds" (text f) = true)) /\
  flags [] = {| has_watch := false; has_warning := false; has_pds := false |} /\
  (forall before after,
      (has_warning (flags features) = true ->
       has_warning (flags (before ++ features ++ after)%list) = true) /\
      (has_watch (flags features) = true ->
       has_watch (flags (before ++ features ++ after)%list) = true) /\
      (has_pds (flags features) = true ->
       has_pds (flags (before ++ features ++ after)%list) = true)).
Proof.
  cbv zeta.
  destruct (classify_flags str_other features) as (W & N & P).
  split; [|split; [|split; [|split]]].
  - rewrite N, existsb_exists. unfold warns. tauto.
  - rewrite W, existsb_exists. unfold watches. tauto.
  - rewrite P, existsb_exists. unfold is_pds.
    split; intros (f & I & H); exists f; (split; [exact I|]).
    + apply orb_true_iff. exact H.
    + apply orb_true_iff. exact H.
  - reflexivity.
  - intros before after.
    destruct (classify_flags str_other (before ++ features ++ after)%list) as (W' & N' & P').
    rewrite W, N, P, W', N', P', !existsb_app.
    repeat split; intros ->; rewrite ?orb_true_r; reflexivity.
Qed.

Lemma classify_tornado_alerts_spec_witness :
  has_warning (classify_tornado_alerts no_rendering [PInt 7; warning_alert]) = true.
Proof.
  destruct (classify_tornado_alerts_spec no_rendering [PInt 7; warning_alert]) as (H & _).
  apply H. exists warning_alert. split.
  - right. left. reflexivity.
  - vm_compute. reflexivity.
Defined.

(** ** Properties of [get_spc_categorical] *)

Lemma first_in_vocabulary (label : string) :
  (if contains "TSTM" label then Some "TSTM"
   else first_in ["MRGL"; "SLGT"; "ENH"; "MDT"; "HIGH"] label)
  = first_in VOCABULARY label.
Proof. reflexivity. Qed.

(** C6, as stated, fails: the label "EN<tab>H" resolves to no category,
    although with its white space removed it contains ENH. *)
Lemma get_spc_categorical_keeps_tab :
  get_spc_categorical (one_polygon [("LABEL", PStr tabbed_label)]) = OK None /\
  first_in VOCABULARY (stated_normalize tabbed_label) = Some "ENH".
Proof. split; vm_compute; reflexivity. Qed.

(** C6, amended.  With no polygon in the response the category is none.
    Otherwise the label is the first truthy value of the first polygon
    under LABEL, LABEL2, Type and label, in that order; it is uppercased,
    its space characters are removed, and the category is the first of
    TSTM, MRGL, SLGT, ENH, MDT, HIGH that occurs in it, none if no one
    does.  "Enhanced Risk (ENH)" resolves to ENH. *)
Theorem get_spc_categorical_spec :
  (forall data,
      get data "features" (PList []) = PList [] ->
      get_spc_categorical data = OK None) /\
  (forall data f0 rest props label,
      get data "features" (PList []) = PList (PDict f0 :: rest) ->
      get f0 "properties" (PDict []) = PDict props ->
      first_truthy props ["LABEL"; "LABEL2"; "Type"; "label"] = PStr label ->
      get_spc_categorical data = OK (first_in VOCABULARY (normalize label))) /\
  get_spc_categorical (one_polygon [("LABEL", PStr "Enhanced Risk (ENH)")])
  = OK (Some "ENH").
Proof.
  split; [|split].
  - intros data H. unfold get_spc_categorical. rewrite H. reflexivity.
  - intros data f0 rest props label Hf Hp Hl.
    unfold get_spc_categorical. rewrite Hf.
    cbn [truthy negb item0 bind get_method]. rewrite Hp, Hl.
    fold (normalize label). rewrite <- first_in_vocabulary.
    destruct (contains "TSTM" (normalize label)); reflexivity.
  - vm_compute. reflexivity.
Qed.

Lemma get_spc_categorical_spec_witness :
  get_spc_categorical (one_polygon [("LABEL2", PStr "slight risk"); ("Type", PStr "MDT")])
  = OK (first_in VOCABULARY (normalize "slight risk")).
Proof.
  destruct get_spc_categorical_spec as (_ & H & _).
  apply (H _ [("type", PStr "Feature");
              ("properties", PDict [("LABEL2", PStr "slight risk"); ("Type", PStr "MDT")])]
           [] [("LABEL2", PStr "slight risk"); ("Type", PStr "MDT")]); reflexivity.
Defined.

(** ** Properties of [get_spc_prob_tornado] *)

Lemma pct_of_spec (str_other : pyval -> string) (v : pyval) :
  pct_of str_other v =
  match find_pct (py_str str_other v) with
  | Some ds => Some (digits_int ds)
  | None => None
  end.
Proof.
  unfold pct_of. rewrite search_pct.
  destruct (find_pct (py_str str_other v)) as [ds|] eqn:E; cbn [option_map]; [|reflexivity].
  cbn [int_of_group]. rewrite (find_pct_int _ _ E). reflexivity.
Qed.

Lemma scan_values_spec (str_other : pyval -> string) (vs : list pyval) :
  scan_values str_other vs =
  percent_of (first_some (fun v => find_pct (py_str str_other v)) vs).
Proof.
  induction vs as [|v vs IH]; cbn [scan_values first_some]; [reflexivity|].
  rewrite pct_of_spec.
  destruct (find_pct (py_str str_other v)); [reflexivity | exact IH].
Qed.

(** C7, as stated, fails: the label "5 %" resolves to 5, although no
    number in it has the percent sign right after it. *)
Lemma get_spc_prob_tornado_skips_space :
  get_spc_prob_tornado no_rendering (one_polygon [("LABEL", PStr "5 %")]) = OK (Some 5) /\
  find_pct_immediate "5 %" = None /\
  first_some (fun v => find_pct_immediate (py_str no_rendering v))
    (values [("LABEL", PStr "5 %")]) = None.
Proof. repeat split; vm_compute; reflexivity. Qed.

(** C7, amended.  With no polygon in the response the percentage is absent.
    Otherwise the text of the first truthy value of the first polygon under
    LABEL and label is searched for a run of digits followed, after optional
    white space, by a percent sign; if there is none, the attribute values
    are searched in their stored order and the first such run decides; the
    result is the integer of the run, absent if no value has one.  The
    attributes [{"LABEL": "5%"}] resolve to 5. *)
Theorem get_spc_prob_tornado_spec (str_other : pyval -> string) :
  (forall data,
      get data "features" (PList []) = PList [] ->
      get_spc_prob_tornado str_other data = OK None) /\
  (forall data f0 rest props,
      get data "features" (PList []) = PList (PDict f0 :: rest) ->
      get f0 "properties" (PDict []) = PDict props ->
      get_spc_prob_tornado str_other data =
      percent_of
        match find_pct (py_str str_other (first_truthy props ["LABEL"; "label"])) with
        | Some ds => Some ds
        | None => first_some (fun v => find_pct (py_str str_other v)) (values props)
        end) /\
  get_spc_prob_tornado str_other (one_polygon [("LABEL", PStr "5%")]) = OK (Some 5).
Proof.
  split; [|split].
  - intros data H. unfold get_spc_prob_tornado. rewrite H. reflexivity.
  - intros data f0 rest props Hf Hp.
    unfold get_spc_prob_tornado. rewrite Hf.
    cbn [truthy negb item0 bind get_method]. rewrite Hp.
    rewrite pct_of_spec, scan_values_spec.
    destruct (find_pct (py_str str_other (first_truthy props ["LABEL"; "label"])));
      reflexivity.
  - vm_compute. reflexivity.
Qed.

Lemma get_spc_prob_tornado_spec_witness :
  get_spc_prob_tornado no_rendering
    (one_polygon [("dn", PInt 10); ("LABEL", PStr "sig"); ("note", PStr "10 % tornado")])
  = OK (Some 10).
Proof.
  destruct (get_spc_prob_tornado_spec no_rendering) as (_ & H & _).
  rewrite (H (one_polygon [("dn", PInt 10); ("LABEL", PStr "sig");
                           ("note", PStr "10 % tornado")])
             [("type", PStr "Feature");
              ("properties", PDict [("dn", PInt 10); ("LABEL", PStr "sig");
                                    ("note", PStr "10 % tornado")])]
             [] [("dn", PInt 10); ("LABEL", PStr "sig"); ("note", PStr "10 % tornado")]
             eq_refl eq_refl).
  vm_compute. reflexivity.
Defined.

(** ** Further properties of [score_likelihood] *)

(** A returned score has one decimal: it is the float nearest to [k / 10]
    for an integer [k] between 0 and 1000. *)
Theorem score_one_decimal (c : option string) (p : option Z) (al : AlertFlags)
  (hs : HourlySummary) (r : float) :
  score_of (score_likelihood c p al hs) = OK r ->
  exists k, 0 <= k <= 1000 /\ r = literal k 10.
Proof.
  intros H. apply score_of_inv in H. destruct H as (s & _ & ->).
  pose proof (clipZ_range (floors al s)) as R.
  set (n := clipZ (floors al s)) in *.
  pose proof U_pos as HU.
  exists (rhe (10 * n) U). split.
  - split.
    + rewrite <- (rhe_exact 0 U HU). apply rhe_mono; lia.
    + rewrite <- (rhe_exact 1000 U HU). apply rhe_mono; lia.
  - unfold literal, round, of_units. fold (round1Z n).
    pose proof (round1Z_range n R).
    assert (B : 100 * U < HUGE) by reflexivity.
    destruct (Z.leb_spec HUGE (Z.abs (round1Z n))); [lia | reflexivity].
Qed.

Lemma score_one_decimal_witness : exists k, 0 <= k <= 1000 /\ literal 600 10 = literal k 10.
Proof.
  apply (score_one_decimal (Some "SLGT") (Some 10) no_alerts
           {| thunder_hours := 3; max_pop := 60; max_gust_mph := 40 |}).
  vm_compute. reflexivity.
Defined.

(** Thunder hours beyond ten add nothing: the outcome is the one for ten. *)
Theorem thunder_hours_saturate (c : option string) (p : option Z) (al : AlertFlags)
  (t q g : Z) :
  10 <= t ->
  score_of (score_likelihood c p al
              {| thunder_hours := t; max_pop := q; max_gust_mph := g |}) =
  score_of (score_likelihood c p al
              {| thunder_hours := 10; max_pop := q; max_gust_mph := g |}).
Proof.
  intros H. rewrite !score_of_unfold. unfold raw_score.
  cbn [thunder_hours max_pop max_gust_mph].
  replace (Z.min t 10) with (Z.min 10 10) by lia. reflexivity.
Qed.

Lemma thunder_hours_saturate_witness :
  score_of (score_likelihood None None no_alerts
              {| thunder_hours := 24; max_pop := 0; max_gust_mph := 0 |}) =
  score_of (score_likelihood None None no_alerts
              {| thunder_hours := 10; max_pop := 0; max_gust_mph := 0 |}).
Proof. apply thunder_hours_saturate. lia. Defined.

(** Gusts up to 35 mph add nothing, and gusts from 65 mph on add the same
    capped bonus of 30. *)
Theorem gust_bonus_threshold_and_cap (c : option string) (p : option Z) (al : AlertFlags)
  (t q g : Z) :
  (g <= 35 ->
   score_of (score_likelihood c p al
               {| thunder_hours := t; max_pop := q; max_gust_mph := g |}) =
   score_of (score_likelihood c p al
               {| thunder_hours := t; max_pop := q; max_gust_mph := 0 |})) /\
  (65 <= g ->
   score_of (score_likelihood c p al
               {| thunder_hours := t; max_pop := q; max_gust_mph := g |}) =
   score_of (score_likelihood c p al
               {| thunder_hours := t; max_pop := q; max_gust_mph := 65 |})).
Proof.
  split; intros H; rewrite !score_of_unfold; unfold raw_score;
    cbn [thunder_hours max_pop max_gust_mph].
  - destruct (Z.ltb_spec 35 g); [lia|].
    destruct (Z.ltb_spec 35 0); [lia|]. reflexivity.
  - destruct (Z.ltb_spec 35 g); [|lia].
    destruct (Z.ltb_spec 35 65); [|lia].
    replace (Z.min (g - 35) 30) with (Z.min (65 - 35) 30) by lia. reflexivity.
Qed.

Lemma gust_bonus_threshold_and_cap_witness :
  score_of (score_likelihood None None no_alerts
              {| thunder_hours := 0; max_pop := 0; max_gust_mph := 35 |}) =
  score_of (score_likelihood None None no_alerts
              {| thunder_hours := 0; max_pop := 0; max_gust_mph := 0 |}) /\
  score_of (score_likelihood None None no_alerts
              {| thunder_hours := 0; max_pop := 0; max_gust_mph := 120 |}) =
  score_of (score_likelihood None None no_alerts
              {| thunder_hours := 0; max_pop := 0; max_gust_mph := 65 |}).
Proof.
  split.
  - apply (proj1 (gust_bonus_threshold_and_cap None None no_alerts 0 0 35)). lia.
  - apply (proj2 (gust_bonus_threshold_and_cap None None no_alerts 0 0 120)). lia.
Defined.

Lemma floors_flags_mono (a a' : AlertFlags) (s : float) :
  flags_le a a' -> fle (floors a s) (floors a' s).
Proof.
  intros (W & N & P). unfold floors. rewrite c70_eq, c90_eq, c98_eq.
  destruct (has_watch a), (has_warning a), (has_pds a);
    try rewrite (W eq_refl); try rewrite (N eq_refl); try rewrite (P eq_refl);
    destruct (has_watch a'), (has_warning a'), (has_pds a');
    repeat first
      [ apply fle_refl
      | apply py_max_mono
      | eapply fle_trans; [|apply py_max_above] ].
Qed.

(** Setting an alert flag never lowers the score. *)
Theorem alerts_only_raise (c : option string) (p : option Z) (a a' : AlertFlags)
  (hs : HourlySummary) (r r' : float) :
  flags_le a a' ->
  score_of (score_likelihood c p a hs) = OK r ->
  score_of (score_likelihood c p a' hs) = OK r' ->
  float_le r r'.
Proof.
  intros L E E'. apply score_of_inv in E, E'.
  destruct E as (s & Es & ->), E' as (s' & Es' & ->).
  assert (s' = s) by congruence. subst s'.
  eexists _, _. split; [reflexivity|]. split; [reflexivity|].
  apply round1Z_mono, clipZ_mono, floors_flags_mono, L.
Qed.

Lemma alerts_only_raise_witness : float_le (literal 600 10) (literal 900 10).
Proof.
  apply (alerts_only_raise (Some "SLGT") (Some 10) no_alerts
           {| has_watch := false; has_warning := true; has_pds := false |}
           {| thunder_hours := 3; max_pop := 60; max_gust_mph := 40 |}).
  - repeat split; cbn; intros H; discriminate H.
  - vm_compute. reflexivity.
  - vm_compute. reflexivity.
Defined.

(** ** Further properties of [summarize_hourly] *)

Lemma description_error_spec (p : dict) :
  match description p with
  | OK _ => description_error p = None
  | Raise e => description_error p = Some e
  end.
Proof.
  unfold description, description_error.
  destruct (lookup p "shortForecast") as [v|]; [|reflexivity].
  destruct v as [|b|z|x|s|l|d]; try reflexivity;
    match goal with |- context [truthy ?v] => destruct (truthy v) end; reflexivity.
Qed.

Lemma gust_error_spec (p : dict) :
  match gust_reading p with
  | OK _ => gust_error p = None
  | Raise e => gust_error p = Some e
  end.
Proof.
  unfold gust_reading, gust_error.
  destruct (lookup p "windGust") as [v|]; [|reflexivity].
  destruct v as [|b|z|x|s|l|d]; try reflexivity.
  - destruct (Z.ltb_spec (Z.abs z) (2 ^ 1024 - 2 ^ 970)) as [L|G].
    + apply float_of_int_range in L. destruct L as [x Hx]. rewrite Hx. cbn [bind].
      apply float_of_int_inv in Hx. destruct Hx as (n & -> & _). reflexivity.
    + destruct (float_of_int z) as [x|e] eqn:E.
      * exfalso. assert (in_float_range z) by (apply float_of_int_range; eauto).
        unfold in_float_range in *. lia.
      * cbn [bind]. apply float_of_int_raise in E. destruct E as [-> _]. reflexivity.
  - destruct x as [|sg|n]; reflexivity.
  - destruct (first_digits s) as [ds|]; [|reflexivity].
    unfold digits_int. destruct (Z.of_nat (String.length ds) <=? INT_MAX_STR_DIGITS);
      reflexivity.
Qed.

Lemma period_error_spec (acc : HourlySummary) (p : dict) :
  match summarize_period acc p with
  | OK _ => period_error p = None
  | Raise e => period_error p = Some e
  end.
Proof.
  rewrite summarize_period_spec. unfold period_error.
  pose proof (description_error_spec p) as D. pose proof (gust_error_spec p) as G.
  destruct (description p) as [d|e]; cbn [bind]; rewrite D; [|reflexivity].
  destruct (gust_reading p) as [g|e]; cbn [bind]; exact G.
Qed.

Lemma for_each_error (ps : list dict) (acc : HourlySummary) :
  match for_each summarize_period ps acc with
  | OK _ => first_some period_error ps = None
  | Raise e => first_some period_error ps = Some e
  end.
Proof.
  revert acc. induction ps as [|p ps IH]; intros acc; cbn [for_each first_some];
    [reflexivity|].
  pose proof (period_error_spec acc p) as H.
  destruct (summarize_period acc p) as [acc'|e]; cbn [bind]; rewrite H; [|reflexivity].
  apply IH.
Qed.

Lemma summarize_hourly_eq (ps : list dict) :
  summarize_hourly ps =
  match first_some period_error ps with
  | Some e => Raise e
  | None => OK (summary_of ps)
  end.
Proof.
  pose proof (for_each_error ps {| thunder_hours := 0; max_pop := 0; max_gust_mph := 0 |})
    as E.
  pose proof (summarize_loop ps {| thunder_hours := 0; max_pop := 0; max_gust_mph := 0 |})
    as S.
  cbn [thunder_hours max_pop max_gust_mph] in S.
  specialize (S ltac:(lia) ltac:(lia)).
  unfold summarize_hourly.
  destruct (for_each summarize_period ps _) as [r|e]; rewrite E; [|reflexivity].
  destruct S as (_ & T & P & G). unfold summary_of.
  pose proof (max0_nonneg (map pop_percent ps)).
  pose proof (max0_nonneg (map gust_mph ps)).
  destruct r as [t q g]. cbn [thunder_hours max_pop max_gust_mph] in *.
  f_equal. f_equal; lia.
Qed.

(** [summarize_hourly] raises the exception of the first period that it
    cannot read, and returns the summary when there is none: [TypeError] for
    a truthy description that is not text, [ValueError] for a NaN gust or a
    gust text whose first run of digits is longer than 4300, [OverflowError]
    for an infinite gust or an integer gust beyond the floats. *)
Theorem summarize_hourly_outcome (ps : list dict) :
  summarize_hourly ps =
  match first_some period_error ps with
  | Some e => Raise e
  | None => OK (summary_of ps)
  end.
Proof. exact (summarize_hourly_eq ps). Qed.

Lemma first_some_none {A B : Type} (f : A -> option B) (l : list A) :
  first_some f l = None <-> Forall (fun x => f x = None) l.
Proof.
  induction l as [|x l IH]; cbn [first_some].
  - split; [constructor | reflexivity].
  - destruct (f x) eqn:E.
    + split; [discriminate|]. intros H. inversion H. congruence.
    + rewrite IH. split; [constructor; assumption | intros H; inversion H; assumption].
Qed.

Lemma max0_app (l l' : list Z) : max0 (l ++ l')%list = Z.max (max0 l) (max0 l').
Proof.
  pose proof (max0_nonneg l').
  induction l as [|x l IH]; unfold max0 in *; cbn [fold_right app]; lia.
Qed.

Lemma max0_perm (l l' : list Z) : Permutation l l' -> max0 l = max0 l'.
Proof.
  intros H. induction H; unfold max0 in *; cbn [fold_right]; lia.
Qed.

Lemma filter_length_perm {A : Type} (f : A -> bool) (l l' : list A) :
  Permutation l l' -> List.length (filter f l) = List.length (filter f l').
Proof.
  intros H. induction H; cbn [filter].
  - reflexivity.
  - destruct (f x); cbn [List.length]; congruence.
  - destruct (f x), (f y); reflexivity.
  - congruence.
Qed.

Lemma summary_of_perm (ps ps' : list dict) :
  Permutation ps ps' -> summary_of ps = summary_of ps'.
Proof.
  intros H. unfold summary_of.
  rewrite (filter_length_perm _ _ _ H).
  rewrite (max0_perm _ _ (Permutation_map pop_percent H)).
  rewrite (max0_perm _ _ (Permutation_map gust_mph H)).
  reflexivity.
Qed.

(** The summary does not depend on the order of the hours: when
    [summarize_hourly] returns on a sequence, it returns the same summary on
    each of its permutations. *)
Theorem summarize_hourly_permutation (ps ps' : list dict) (r : HourlySummary) :
  Permutation ps ps' ->
  summarize_hourly ps = OK r ->
  summarize_hourly ps' = OK r.
Proof.
  intros H. rewrite !summarize_hourly_eq.
  destruct (first_some period_error ps) eqn:E; [discriminate|].
  apply first_some_none in E.
  assert (E' : first_some period_error ps' = None).
  { apply first_some_none. eapply Permutation_Forall; eassumption. }
  rewrite E', (summary_of_perm _ _ H). auto.
Qed.

Lemma summarize_hourly_permutation_witness :
  summarize_hourly [ [("windGust", PStr "40 mph")]; [("shortForecast", PStr "Storms")] ]
  = OK {| thunder_hours := 1; max_pop := 0; max_gust_mph := 40 |}.
Proof.
  apply (summarize_hourly_permutation
           [ [("shortForecast", PStr "Storms")]; [("windGust", PStr "40 mph")] ]).
  - apply perm_swap.
  - vm_compute. reflexivity.
Defined.

(** The summary of two stretches of hours put end to end is the merge of
    their summaries: thunder hours add up, the two maxima are the larger
    ones. *)
Theorem summarize_hourly_app (ps1 ps2 : list dict) (r1 r2 : HourlySummary) :
  summarize_hourly ps1 = OK r1 ->
  summarize_hourly ps2 = OK r2 ->
  summarize_hourly (ps1 ++ ps2)%list = OK (merge r1 r2).
Proof.
  rewrite !summarize_hourly_eq.
  destruct (first_some period_error ps1) eqn:E1; [discriminate|].
  destruct (first_some period_error ps2) eqn:E2; [discriminate|].
  intros H1 H2. apply OK_inj in H1, H2. subst r1 r2.
  assert (E : first_some period_error (ps1 ++ ps2)%list = None).
  { apply first_some_none, Forall_app. split; apply first_some_none; assumption. }
  rewrite E. f_equal. unfold summary_of, merge.
  cbn [thunder_hours max_pop max_gust_mph].
  rewrite filter_app, !map_app, !max0_app, length_app, Nat2Z.inj_add. reflexivity.
Qed.

Lemma summarize_hourly_app_witness :
  summarize_hourly ([ [("shortForecast", PStr "Storms")] ] ++
                    [ [("windGust", PStr "40 mph")] ])%list
  = OK (merge {| thunder_hours := 1; max_pop := 0; max_gust_mph := 0 |}
              {| thunder_hours := 0; max_pop := 0; max_gust_mph := 40 |}).
Proof.
  apply summarize_hourly_app; vm_compute; reflexivity.
Defined.

(** No hour is counted twice: [thunder_hours] is at most the number of
    periods. *)
Theorem thunder_hours_at_most_periods (ps : list dict) (r : HourlySummary) :
  summarize_hourly ps = OK r ->
  0 <= thunder_hours r <= Z.of_nat (List.length ps).
Proof.
  rewrite summarize_hourly_eq.
  destruct (first_some period_error ps); [discriminate|].
  intros H. apply OK_inj in H. subst r. unfold summary_of. cbn [thunder_hours].
  pose proof (filter_length_le thunder_period ps). lia.
Qed.

Lemma thunder_hours_at_most_periods_witness :
  0 <= 2 <= Z.of_nat (List.length [ [("shortForecast", PStr "Thunderstorms")];
                                    [("shortForecast", PStr "T-storms and storms")] ]).
Proof.
  apply (thunder_hours_at_most_periods _
           {| thunder_hours := 2; max_pop := 0; max_gust_mph := 0 |}).
  vm_compute. reflexivity.
Defined.

(** An integer gust of magnitude up to [2^53] passes through the float
    conversion unchanged: alone in the sequence it gives
    [max_gust_mph = max(0, gust)]. *)
Theorem integer_gust_exact (p : dict) (z : Z) :
  lookup p "windGust" = Some (PInt z) ->
  Z.abs z <= 2 ^ 53 ->
  description_error p = None ->
  exists r, summarize_hourly [p] = OK r /\ max_gust_mph r = Z.max 0 z.
Proof.
  intros Hg Hz Hd. rewrite summarize_hourly_eq.
  assert (G : gust_reading p = OK z).
  { unfold gust_reading. rewrite Hg, float_of_int_small by assumption.
    cbn [bind int_of_float]. f_equal. apply Z.quot_mul. pose proof U_pos. lia. }
  assert (E : period_error p = None).
  { unfold period_error. rewrite Hd. pose proof (gust_error_spec p) as S.
    rewrite G in S. exact S. }
  cbn [first_some]. rewrite E.
  eexists. split; [reflexivity|].
  unfold summary_of. cbn [max_gust_mph map]. unfold max0, gust_mph.
  rewrite G. cbn [fold_right]. lia.
Qed.

Lemma integer_gust_exact_witness :
  exists r, summarize_hourly [ [("windGust", PInt 9007199254740992)] ] = OK r /\
            max_gust_mph r = Z.max 0 9007199254740992.
Proof.
  apply integer_gust_exact.
  - reflexivity.
  - vm_compute. discriminate.
  - reflexivity.
Defined.

(** ** Further properties of [classify_tornado_alerts] *)

Lemma classify_flags_of (str_other : pyval -> string) (fs : list pyval) :
  classify_tornado_alerts str_other fs = flags_of str_other fs.
Proof.
  destruct (classify_flags str_other fs) as (W & N & P).
  destruct (classify_tornado_alerts str_other fs) as [w n p].
  cbn [has_watch has_warning has_pds] in *. subst. reflexivity.
Qed.

(** The flags of two lists of alerts put end to end are the disjunctions of
    their flags. *)
Theorem classify_app (str_other : pyval -> string) (fs1 fs2 : list pyval) :
  classify_tornado_alerts str_other (fs1 ++ fs2)%list =
  flags_or (classify_tornado_alerts str_other fs1) (classify_tornado_alerts str_other fs2).
Proof.
  rewrite !classify_flags_of. unfold flags_of, flags_or.
  cbn [has_watch has_warning has_pds]. rewrite !existsb_app. reflexivity.
Qed.

Lemma existsb_perm {A : Type} (f : A -> bool) (l l' : list A) :
  Permutation l l' -> existsb f l = existsb f l'.
Proof.
  intros H. induction H; cbn [existsb].
  - reflexivity.
  - congruence.
  - destruct (f x), (f y); reflexivity.
  - congruence.
Qed.

(** The flags do not depend on the order of the alerts. *)
Theorem classify_permutation (str_other : pyval -> string) (fs fs' : list pyval) :
  Permutation fs fs' ->
  classify_tornado_alerts str_other fs = classify_tornado_alerts str_other fs'.
Proof.
  intros H. rewrite !classify_flags_of. unfold flags_of.
  rewrite (existsb_perm _ _ _ H), (existsb_perm (warns str_other) _ _ H),
    (existsb_perm (is_pds str_other) _ _ H).
  reflexivity.
Qed.

Lemma classify_permutation_witness :
  classify_tornado_alerts no_rendering [PInt 7; warning_alert] =
  classify_tornado_alerts no_rendering [warning_alert; PInt 7].
Proof. apply classify_permutation, perm_swap. Defined.

Lemma alert_text_blank (str_other : pyval -> string) (f : pyval) :
  match path f ["properties"] with
  | Some (PDict _) => False
  | _ => True
  end ->
  alert_text str_other f = "  ".
Proof.
  intros H. unfold alert_text. rewrite !safe_get_path.
  assert (E : forall k, path f ["properties"; k] = None).
  { intros k. cbn [path] in *. destruct f as [| | | | | |d]; try reflexivity.
    destruct (lookup d "properties") as [v|]; [|reflexivity].
    destruct v; try reflexivity. contradiction. }
  rewrite !E. reflexivity.
Qed.

(** A record that is not a dictionary, or whose "properties" are missing or
    not a dictionary, raises nothing and sets no flag: the flags are those
    of the list without it. *)
Theorem classify_skips_malformed (str_other : pyval -> string)
  (before after : list pyval) (f : pyval) :
  match path f ["properties"] with
  | Some (PDict _) => False
  | _ => True
  end ->
  classify_tornado_alerts str_other (before ++ f :: after)%list =
  classify_tornado_alerts str_other (before ++ after)%list.
Proof.
  intros H. rewrite !classify_flags_of. unfold flags_of.
  rewrite !existsb_app. cbn [existsb].
  unfold watches at 2, warns at 2, is_pds at 2.
  rewrite (alert_text_blank str_other f H). reflexivity.
Qed.

Lemma classify_skips_malformed_witness :
  classify_tornado_alerts no_rendering ([warning_alert] ++ PStr "tornado warning" :: [])%list =
  classify_tornado_alerts no_rendering ([warning_alert] ++ [])%list.
Proof. apply classify_skips_malformed. exact I. Defined.

(** ** Further properties of [get_spc_categorical] *)

Lemma first_in_In (vs : list string) (label v : string) :
  first_in vs label = Some v -> In v vs /\ contains v label = true.
Proof.
  induction vs as [|x vs IH]; cbn [first_in]; [discriminate|].
  destruct (contains x label) eqn:E.
  - intros [= <-]. split; [left; reflexivity | exact E].
  - intros H. destruct (IH H). split; [right|]; assumption.
Qed.

(** A category that [get_spc_categorical] returns belongs to the vocabulary
    and occurs in the normalized text of some attribute of the first
    polygon. *)
Theorem get_spc_categorical_range (data : dict) (v : string) :
  get_spc_categorical data = OK (Some v) ->
  In v VOCABULARY.
Proof.
  unfold get_spc_categorical.
  destruct (negb (truthy (get data "features" (PList [])))); [discriminate|].
  destruct (item0 (get data "features" (PList []))) as [f0|e]; cbn [bind]; [|discriminate].
  destruct (get_method f0 "properties" (PDict [])) as [props|e]; cbn [bind]; [|discriminate].
  destruct props as [| | | | | |props]; try discriminate.
  destruct (first_truthy props ["LABEL"; "LABEL2"; "Type"; "label"]) as [| | | |label| |];
    try discriminate.
  fold (normalize label).
  destruct (contains "TSTM" (normalize label)).
  - intros H. apply OK_inj in H. injection H as <-. left. reflexivity.
  - intros H. apply OK_inj in H. apply first_in_In in H. destruct H as [H _].
    right. exact H.
Qed.

Lemma get_spc_categorical_range_witness : In "ENH" VOCABULARY.
Proof.
  apply (get_spc_categorical_range (one_polygon [("LABEL", PStr "Enhanced Risk (ENH)")])).
  vm_compute. reflexivity.
Defined.

(** A truthy label that is not text makes [get_spc_categorical] raise
    [AttributeError]: a number has no [upper]. *)
Theorem get_spc_categorical_non_text (data f0 : dict) (rest : list pyval) (props : dict) :
  get data "features" (PList []) = PList (PDict f0 :: rest) ->
  get f0 "properties" (PDict []) = PDict props ->
  match first_truthy props ["LABEL"; "LABEL2"; "Type"; "label"] with
  | PStr _ => False
  | _ => True
  end ->
  get_spc_categorical data = Raise AttributeError.
Proof.
  intros Hf Hp Hl. unfold get_spc_categorical. rewrite Hf.
  cbn [truthy negb item0 bind get_method]. rewrite Hp.
  destruct (first_truthy props ["LABEL"; "LABEL2"; "Type"; "label"]);
    try reflexivity. contradiction.
Qed.

Lemma get_spc_categorical_non_text_witness :
  get_spc_categorical (one_polygon [("LABEL", PInt 3)]) = Raise AttributeError.
Proof.
  apply (get_spc_categorical_non_text _
           [("type", PStr "Feature"); ("properties", PDict [("LABEL", PInt 3)])]
           [] [("LABEL", PInt 3)]); [reflexivity | reflexivity | exact I].
Defined.







(** ** Further properties of [get_spc_prob_tornado] *)

Lemma take_drop_while_app (p : ascii -> bool) (s : string) :
  s = take_while p s ++ drop_while p s.
Proof.
  induction s as [|c s IH]; cbn [take_while drop_while]; [reflexivity|].
  destruct (p c); cbn [append]; [rewrite <- IH|]; reflexivity.
Qed.

Lemma pct_at_sound (s ds : string) :
  pct_at s = Some ds ->
  exists ws post,
    s = ds ++ ws ++ String "%" post /\
    ds <> "" /\ all_chars is_digit ds = true /\ all_chars is_space ws = true.
Proof.
  destruct s as [|c s]; cbn [pct_at]; [discriminate|].
  destruct (is_digit c) eqn:D; [|discriminate].
  destruct (drop_while is_space (drop_while is_digit s)) as [|d post] eqn:E; [discriminate|].
  destruct (Ascii.eqb_spec d "%") as [->|]; [|discriminate].
  intros [= <-].
  exists (take_while is_space (drop_while is_digit s)), post.
  split; [|split; [discriminate | split]].
  - cbn [append]. f_equal. rewrite <- E, <- take_drop_while_app.
    apply take_drop_while_app.
  - cbn [all_chars]. rewrite D. apply all_chars_take_while.
  - apply all_chars_take_while.
Qed.

(** What the percentage pattern finds is a non-empty run of digits of the
    text, followed there by optional white space and a percent sign. *)
Lemma find_pct_sound (s ds : string) :
  find_pct s = Some ds ->
  exists pre ws post,
    s = pre ++ ds ++ ws ++ String "%" post /\
    ds <> "" /\ all_chars is_digit ds = true /\ all_chars is_space ws = true.
Proof.
  induction s as [|c s IH]; unfold find_pct; fold find_pct.
  - cbn [pct_at]. discriminate.
  - destruct (pct_at (String c s)) as [x|] eqn:E.
    + intros [= <-]. destruct (pct_at_sound _ _ E) as (ws & post & H).
      exists "", ws, post. exact H.
    + intros H. destruct (IH H) as (pre & ws & post & -> & R).
      exists (String c pre), ws, post. split; [reflexivity | exact R].
Qed.

Lemma drop_while_app_stop (p : ascii -> bool) (a b : string) :
  all_chars p a = true ->
  match b with String c _ => p c = false | EmptyString => True end ->
  drop_while p (a ++ b) = b.
Proof.
  intros Ha Hb. induction a as [|c a IH]; cbn [append drop_while].
  - destruct b as [|c b]; [reflexivity|]. cbn [drop_while]. rewrite Hb. reflexivity.
  - cbn [all_chars] in Ha. apply andb_true_iff in Ha. destruct Ha as [Hc Ha].
    rewrite Hc. apply IH, Ha.
Qed.

Lemma space_not_digit (c : ascii) : is_space c = true -> is_digit c = false.
Proof.
  intros H. destruct (is_digit c) eqn:D; [|reflexivity].
  rewrite (digit_not_space c D) in H. discriminate.
Qed.

(** The pattern misses no percentage: a text that holds a digit followed by
    optional white space and a percent sign yields a match. *)
Lemma find_pct_complete (pre ws post : string) (c : ascii) :
  is_digit c = true -> all_chars is_space ws = true ->
  find_pct (pre ++ String c (ws ++ String "%" post)) <> None.
Proof.
  intros Hc Hw. induction pre as [|a pre IH]; cbn [append].
  - unfold find_pct; fold find_pct. cbn [pct_at]. rewrite Hc.
    assert (E1 : drop_while is_digit (ws ++ String "%" post) = ws ++ String "%" post).
    { destruct ws as [|w ws]; cbn [append drop_while]; [reflexivity|].
      cbn [all_chars] in Hw. apply andb_true_iff in Hw. destruct Hw as [Hw _].
      rewrite (space_not_digit w Hw). reflexivity. }
    rewrite E1, (drop_while_app_stop is_space ws (String "%" post) Hw) by reflexivity.
    cbn. discriminate.
  - unfold find_pct; fold find_pct.
    destruct (pct_at (String a (pre ++ String c (ws ++ String "%" post))));
      [discriminate | exact IH].
Qed.

Lemma decimal_nonneg (s : string) (acc : Z) :
  all_chars is_digit s = true -> 0 <= acc -> 0 <= decimal s acc.
Proof.
  revert acc. induction s as [|c s IH]; intros acc H Ha; cbn [decimal]; [exact Ha|].
  cbn [all_chars] in H. apply andb_true_iff in H. destruct H as [Hc Hs].
  apply IH; [exact Hs|].
  unfold is_digit in Hc. apply andb_true_iff in Hc. destruct Hc as [H1 _].
  apply Z.leb_le in H1. unfold digit_val. lia.
Qed.

Lemma percent_of_nonneg (found : option string) (n : Z) :
  (forall ds, found = Some ds -> all_chars is_digit ds = true) ->
  percent_of found = OK (Some n) -> 0 <= n.
Proof.
  intros Hd. unfold percent_of. destruct found as [ds|]; [|discriminate].
  unfold digits_int. destruct (_ <=? _); cbn [bind]; [|discriminate].
  intros H. apply OK_inj in H. injection H as <-.
  apply decimal_nonneg; [apply Hd; reflexivity | lia].
Qed.

Lemma first_some_In {A B : Type} (f : A -> option B) (l : list A) (y : B) :
  first_some f l = Some y -> exists x, In x l /\ f x = Some y.
Proof.
  induction l as [|x l IH]; cbn [first_some]; [discriminate|].
  destruct (f x) eqn:E.
  - intros [= <-]. exists x. split; [left; reflexivity | exact E].
  - intros H. destruct (IH H) as (x' & I & Hx). exists x'. split; [right|]; assumption.
Qed.

(** A percentage that [get_spc_prob_tornado] returns is never negative: a
    minus sign before the digits is not part of the match. *)
Theorem get_spc_prob_tornado_nonneg (str_other : pyval -> string) (data : dict) (n : Z) :
  get_spc_prob_tornado str_other data = OK (Some n) -> 0 <= n.
Proof.
  unfold get_spc_prob_tornado.
  destruct (negb (truthy (get data "features" (PList [])))); [discriminate|].
  destruct (item0 (get data "features" (PList []))) as [f0|e]; cbn [bind]; [|discriminate].
  destruct (get_method f0 "properties" (PDict [])) as [props|e]; cbn [bind]; [|discriminate].
  destruct props as [| | | | | |props]; try discriminate.
  rewrite pct_of_spec, scan_values_spec.
  destruct (find_pct (py_str str_other (first_truthy props ["LABEL"; "label"])))
    as [ds|] eqn:E.
  - intros H. apply (percent_of_nonneg (Some ds)); [|exact H].
    intros x [= <-]. destruct (find_pct_sound _ _ E) as (_ & _ & _ & _ & _ & D & _).
    exact D.
  - apply percent_of_nonneg.
    intros x Hx. apply first_some_In in Hx. destruct Hx as (v & _ & Hv).
    destruct (find_pct_sound _ _ Hv) as (_ & _ & _ & _ & _ & D & _). exact D.
Qed.

Lemma get_spc_prob_tornado_nonneg_witness : 0 <= 5.
Proof.
  apply (get_spc_prob_tornado_nonneg no_rendering (one_polygon [("LABEL", PStr "-5%")])).
  vm_compute. reflexivity.
Defined.

(** ** [safe_get] *)

(** [safe_get] returns the value at the end of the key path when every key
    is found in a dictionary on the way, a stored null included, and the
    default otherwise; a path in two parts is followed part by part. *)
Theorem safe_get_spec (cur : pyval) (keys : list string) (default : pyval) :
  (forall v, path cur keys = Some v -> safe_get cur keys default = v) /\
  (path cur keys = None -> safe_get cur keys default = default) /\
  (forall more,
      safe_get cur (keys ++ more)%list default =
      match path cur keys with
      | Some v => safe_get v more default
      | None => default
      end).
Proof.
  split; [|split].
  - intros v H. rewrite safe_get_path, H. reflexivity.
  - intros H. rewrite safe_get_path, H. reflexivity.
  - intros more. revert cur.
    induction keys as [|k keys IH]; intros cur; cbn [app safe_get path]; [reflexivity|].
    destruct cur; try reflexivity.
    destruct (lookup d k); [apply IH | reflexivity].
Qed.

Lemma safe_get_spec_witness :
  safe_get (PDict [("probabilityOfPrecipitation", PDict [("value", PNone)])])
    ["probabilityOfPrecipitation"; "value"] (PInt 0) = PNone.
Proof.
  apply (proj1 (safe_get_spec _ ["probabilityOfPrecipitation"; "value"] (PInt 0))).
  reflexivity.
Defined.

(** ** The patterns *)

(** [(\d+)\s*%] finds a match exactly in the texts that hold a digit
    followed by optional white space and a percent sign, and group 1 of
    the match is a non-empty run of digits of the text with such a
    continuation. *)
Theorem pct_pattern (s : string) :
  (re_search pct_re s <> None <->
   exists pre c ws post,
     s = pre ++ String c (ws ++ String "%" post) /\
     is_digit c = true /\ all_chars is_space ws = true) /\
  (forall g, re_search pct_re s = Some g ->
     exists ds pre ws post,
       g = Some ds /\ s = pre ++ ds ++ ws ++ String "%" post /\
       ds <> "" /\ all_chars is_digit ds = true /\ all_chars is_space ws = true).
Proof.
  rewrite search_pct. split; [split|].
  - destruct (find_pct s) as [ds|] eqn:E; cbn [option_map]; [|congruence].
    intros _. destruct (find_pct_sound _ _ E) as (pre & ws & post & -> & N & D & W).
    destruct ds as [|c ds]; [congruence|].
    cbn [all_chars] in D. apply andb_true_iff in D. destruct D as [Dc Dd].
    destruct ds as [|c' ds].
    + exists pre, c, ws, post. auto.
    + (* the last digit of the run is the one right before the white space *)
      assert (L : forall (a : ascii) (t : string),
                 all_chars is_digit (String a t) = true ->
                 exists t' z, String a t = t' ++ String z "" /\ is_digit z = true).
      { intros a t. revert a. induction t as [|b t IH]; intros a H.
        - exists "", a. cbn [all_chars] in H. apply andb_true_iff in H.
          destruct H as [H _]. auto.
        - cbn [all_chars] in H. apply andb_true_iff in H. destruct H as [_ H].
          destruct (IH b H) as (t' & z & E' & Hz).
          exists (String a t'), z. cbn [append]. rewrite <- E'. auto. }
      destruct (L c' ds Dd) as (t' & z & E' & Hz).
      exists (pre ++ String c t'), z, ws, post. split; [|auto].
      rewrite E'.
      clear. induction pre as [|a pre IH]; cbn [append].
      * f_equal. induction t' as [|b t' IH']; cbn [append]; [reflexivity|].
        f_equal. exact IH'.
      * f_equal. exact IH.
  - intros (pre & c & ws & post & -> & Hc & Hw) H.
    destruct (find_pct (pre ++ String c (ws ++ String "%" post))) eqn:E;
      cbn [option_map] in H; [discriminate|].
    exact (find_pct_complete pre ws post c Hc Hw E).
  - intros g H. destruct (find_pct s) as [ds|] eqn:E; cbn [option_map] in H;
      [|discriminate].
    injection H as <-.
    destruct (find_pct_sound _ _ E) as (pre & ws & post & R).
    exists ds, pre, ws, post. split; [reflexivity | exact R].
Qed.

Lemma pct_pattern_witness : re_search pct_re "risk 10 % today" <> None.
Proof.
  apply (proj1 (pct_pattern "risk 10 % today")).
  exists "risk 1", "0"%char, " ", " today". repeat split.
Defined.





(** ** The scorer on the output of the summarizer *)

Lemma small_in_float_range (z : Z) : Z.abs z <= 2 ^ 53 -> in_float_range z.
Proof.
  unfold in_float_range. intros H.
  assert (2 ^ 53 < 2 ^ 1024 - 2 ^ 970) by reflexivity. lia.
Qed.

(** A summary that [summarize_hourly] returns never makes [score_likelihood]
    raise: with it, the scorer returns a score in [[0, 100]] as soon as the
    percentage, if present, converts to a float. *)
Theorem score_of_summary (ps : list dict) (hs : HourlySummary) (c : option string)
  (p : option Z) (al : AlertFlags) :
  summarize_hourly ps = OK hs ->
  match p with Some v => in_float_range v | None => True end ->
  exists r, score_of (score_likelihood c p al hs) = OK r /\ between 0 100 r.
Proof.
  intros H Hp. rewrite summarize_hourly_eq in H.
  destruct (first_some period_error ps); [discriminate|].
  apply OK_inj in H. subst hs.
  assert (R : inputs_in_range p (summary_of ps)).
  { unfold inputs_in_range, summary_of. cbn [thunder_hours max_pop].
    assert (B : 100 <= 2 ^ 53) by (vm_compute; discriminate).
    split; [exact Hp|]. split; apply small_in_float_range.
    - lia.
    - pose proof (max0_nonneg (map pop_percent ps)).
      assert (max0 (map pop_percent ps) <= 100).
      { apply max0_upper; [lia|]. apply Forall_map, Forall_forall.
        intros q _. apply pop_percent_range. }
      lia. }
  rewrite score_of_unfold.
  pose proof (raw_score_outcome _ p (summary_of ps) (weight_small c)) as O.
  destruct (raw_score (dict_get CAT_WEIGHTS c 0) p (summary_of ps)) as [s|e]; cbn [bind].
  - rewrite finish_eq. eexists. split; [reflexivity|].
    exists (round1Z (clipZ (floors al s))). split; [reflexivity|].
    pose proof (round1Z_range _ (clipZ_range (floors al s))). lia.
  - exfalso. destruct O as [_ O]. exact (O R).
Qed.

Lemma score_of_summary_witness :
  exists r,
    score_of (score_likelihood (Some "ENH") (Some 15) no_alerts
                {| thunder_hours := 1; max_pop := 80; max_gust_mph := 50 |}) = OK r /\
    between 0 100 r.
Proof.
  apply (score_of_summary
           [ [("shortForecast", PStr "Severe Thunderstorms");
              ("probabilityOfPrecipitation", PDict [("value", PInt 80)]);
              ("windGust", PStr "50 mph")] ]).
  - vm_compute. reflexivity.
  - vm_compute. reflexivity.
Defined.

(** ** The hours of the next day *)

Lemma next24_loop_filter (fromisoformat : string -> result datetime)
  (start_utc end_utc : Z) (periods l : list pyval) :
  next24_loop fromisoformat start_utc end_utc periods = OK l ->
  l = filter (fun p => match starts_in fromisoformat start_utc end_utc p with
                       | OK b => b
                       | Raise _ => false
                       end) periods /\
  Forall (fun p => exists b, starts_in fromisoformat start_utc end_utc p = OK b) periods.
Proof.
  revert l. induction periods as [|p periods IH]; intros l; cbn [next24_loop filter].
  - intros H. apply OK_inj in H. subst. split; [reflexivity | constructor].
  - destruct (starts_in fromisoformat start_utc end_utc p) as [b|e] eqn:E; cbn [bind];
      [|discriminate].
    destruct (next24_loop fromisoformat start_utc end_utc periods) as [rest|e]; cbn [bind];
      [|discriminate].
    intros H. apply OK_inj in H. subst l.
    destruct (IH rest eq_refl) as [-> F].
    split; [destruct b; reflexivity | constructor; eauto].
Qed.

Lemma starts_in_true (fromisoformat : string -> result datetime)
  (start_utc end_utc : Z) (p : pyval) :
  starts_in fromisoformat start_utc end_utc p = OK true <->
  exists d s t,
    p = PDict d /\ lookup d "startTime" = Some (PStr s) /\ s <> "" /\
    fromisoformat (replace_Z s) = OK (Aware t) /\
    start_utc <= t < end_utc.
Proof.
  unfold starts_in. split.
  - destruct p as [| | | | | |d]; cbn [get_method bind]; try discriminate.
    unfold get. destruct (lookup d "startTime") as [ts|] eqn:L; [|discriminate].
    destruct (negb (truthy ts)) eqn:T; [discriminate|].
    destruct ts as [| | | |s| |]; try discriminate.
    destruct (fromisoformat (replace_Z s)) as [[t|]|e] eqn:F; cbn [bind];
      try discriminate.
    intros H. apply OK_inj in H. apply andb_true_iff in H. destruct H as [H1 H2].
    apply Z.leb_le in H1. apply Z.ltb_lt in H2.
    exists d, s, t. repeat split; try assumption.
    intros ->. discriminate T.
  - intros (d & s & t & -> & L & N & F & H1 & H2).
    cbn [get_method bind]. unfold get. rewrite L. cbn [truthy].
    destruct (String.eqb_spec s "") as [E|_]; [contradiction|].
    cbn [negb]. rewrite F. cbn [bind]. f_equal.
    apply andb_true_iff. split; [apply Z.leb_le | apply Z.ltb_lt]; lia.
Qed.

(** When the loop of [main] returns, it has kept, in their order, exactly
    the periods whose "startTime" is a non-empty text that parses to an
    instant [t] with [now <= t < now + 24 h]: the window is half-open. *)
Theorem next24_spec (fromisoformat : string -> result datetime) (now : Z)
  (periods l : list pyval) :
  next24 fromisoformat now periods = OK l ->
  l = filter (kept fromisoformat now) periods /\
  (forall p, In p l <->
     In p periods /\
     exists d s t,
       p = PDict d /\ lookup d "startTime" = Some (PStr s) /\ s <> "" /\
       fromisoformat (replace_Z s) = OK (Aware t) /\
       now <= t < now + DAY).
Proof.
  unfold next24, next_24h_window. intros H.
  apply next24_loop_filter in H. destruct H as [-> _].
  split; [reflexivity|].
  intros p. rewrite filter_In, <- starts_in_true.
  destruct (starts_in fromisoformat now (now + DAY) p) as [[]|]; intuition congruence.
Qed.

(** Selecting again from the selection changes nothing. *)
Theorem next24_idempotent (fromisoformat : string -> result datetime) (now : Z)
  (periods l : list pyval) :
  next24 fromisoformat now periods = OK l ->
  next24 fromisoformat now l = OK l.
Proof.
  unfold next24, next_24h_window. intros H.
  apply next24_loop_filter in H. destruct H as [-> F].
  induction periods as [|p periods IH]; cbn [filter next24_loop]; [reflexivity|].
  inversion F as [|? ? [b Hb] F']; subst.
  rewrite Hb. destruct b.
  - cbn [next24_loop]. rewrite Hb. cbn [bind]. rewrite (IH F'). reflexivity.
  - apply IH, F'.
Qed.

Lemma next24_spec_witness :
  [PDict [("startTime", PStr "2026-01-01T00:00:00Z")]]
  = filter (kept two_hours_parser 0) two_periods.
Proof.
  apply (proj1 (next24_spec two_hours_parser 0 two_periods _ eq_refl)).
Defined.

Lemma next24_idempotent_witness :
  next24 two_hours_parser 0 [PDict [("startTime", PStr "2026-01-01T00:00:00Z")]]
  = OK [PDict [("startTime", PStr "2026-01-01T00:00:00Z")]].
Proof. apply (next24_idempotent two_hours_parser 0 two_periods). reflexivity. Defined.

(** ** Rounding errors *)

Lemma rhe_error (a b : Z) : 0 < b -> 2 * Z.abs (rhe a b * b - a) <= b.
Proof.
  intros Hb. unfold rhe.
  pose proof (Z.div_mod a b ltac:(lia)) as D.
  pose proof (Z.mod_pos_bound a b Hb) as M.
  destruct (Z.compare_spec (2 * (a mod b)) b); try destruct (Z.even (a / b)); nia.
Qed.

Lemma shift_of_le (n j : Z) : 0 <= j -> 0 <= n < 2 ^ (53 + j) -> shift_of n <= j.
Proof.
  intros Hj [Hn Hlt].
  destruct (Z.le_gt_cases (shift_of n) j) as [L|G]; [exact L|].
  exfalso.
  assert (0 < shift_of n) by lia.
  pose proof (shift_of_lower n Hn H) as Hl.
  assert (2 ^ (53 + j) <= 2 ^ (52 + shift_of n)) by (apply Z.pow_le_mono_r; lia).
  lia.
Qed.

(** A value below [2^(53+j)] in magnitude is rounded with an error of at
    most [2^j / 2] units. *)
Lemma round_error (a b j : Z) :
  0 < b -> 0 <= j -> Z.abs a < b * 2 ^ (53 + j) ->
  2 * Z.abs (b * round_units a b - a) <= b * 2 ^ j.
Proof.
  intros Hb Hj Ha. unfold round_units.
  set (k := shift_of (Z.abs a / b)).
  assert (Hk0 : 0 <= k) by apply shift_of_nonneg.
  assert (Hk : k <= j).
  { apply shift_of_le; [assumption|]. split.
    - apply Z.div_pos; lia.
    - apply Z.div_lt_upper_bound; lia. }
  assert (Hp : 0 < 2 ^ k) by (apply Z.pow_pos_nonneg; lia).
  assert (Hpj : 2 ^ k <= 2 ^ j) by (apply Z.pow_le_mono_r; lia).
  pose proof (rhe_error a (b * 2 ^ k) ltac:(nia)) as E.
  replace (b * (rhe a (b * 2 ^ k) * 2 ^ k) - a)
    with (rhe a (b * 2 ^ k) * (b * 2 ^ k) - a) by ring.
  nia.
Qed.

Lemma BIG_eq : BIG = 2 ^ (53 + 1051).
Proof. reflexivity. Qed.

Lemma EPS_facts : 16 * 2 ^ 1050 <= EPS /\ 16 * EPS < U /\ BIG + EPS < HUGE /\ 0 < EPS.
Proof. repeat split. all: vm_compute; discriminate. Qed.

(** ** The operations up to an error *)

Lemma approx_weaken (e e' : Z) (s : float) (k : Z) :
  e <= e' -> approx e s k -> approx e' s k.
Proof. intros L (n & -> & H). exists n. split; [reflexivity | lia]. Qed.

Lemma approx_int (z : Z) : Z.abs z <= 2 ^ 53 -> approx 0 (Fin (z * U)) (10 * z).
Proof. intros _. exists (z * U). split; [reflexivity | lia]. Qed.

Lemma round_1_approx (a : Z) :
  Z.abs a < BIG ->
  exists r, round a 1 = Fin r /\ 2 * Z.abs (r - a) <= 2 ^ 1051.
Proof.
  intros Ha. destruct EPS_facts as (E1 & E2 & E3 & E4).
  pose proof (round_error a 1 1051 ltac:(lia) ltac:(lia)) as R.
  rewrite <- BIG_eq in R. specialize (R ltac:(lia)).
  rewrite !Z.mul_1_l in R.
  exists (round_units a 1). split; [|exact R].
  unfold round, of_units.
  assert (P : 2 ^ 1051 = 2 * 2 ^ 1050) by reflexivity.
  destruct (Z.leb_spec HUGE (Z.abs (round_units a 1))); [lia | reflexivity].
Qed.

Lemma add_approx (e1 e2 : Z) (s y : float) (k l : Z) :
  approx e1 s k -> approx e2 y l ->
  0 <= e1 <= U -> 0 <= e2 <= U -> Z.abs k + Z.abs l <= 2 ^ 30 ->
  approx (e1 + e2 + EPS) (add s y) (k + l).
Proof.
  intros (a & -> & Ha) (b & -> & Hb) He1 He2 Hk.
  destruct EPS_facts as (E1 & E2 & E3 & E4). pose proof U_pos as HU.
  assert (HB : Z.abs (a + b) < BIG).
  { unfold BIG. assert (2 ^ 30 = 1073741824) by reflexivity. nia. }
  destruct (round_1_approx (a + b) HB) as (r & Hr & Er).
  cbn [add]. rewrite Hr. exists r. split; [reflexivity|].
  assert (P : 2 ^ 1051 = 2 * 2 ^ 1050) by reflexivity. lia.
Qed.

Lemma mul_approx (ec : Z) (c z cz : Z) :
  Z.abs (10 * c - cz * U) <= ec -> 0 <= ec <= 2 ^ 1030 ->
  0 <= c <= 2 * U -> Z.abs z <= 2 ^ 20 ->
  approx EPS (mul (Fin c) (Fin (z * U))) (cz * z).
Proof.
  intros Hc Hec Hcu Hz.
  destruct EPS_facts as (E1 & E2 & E3 & E4). pose proof U_pos as HU.
  assert (T20 : 2 ^ 20 = 1048576) by reflexivity.
  assert (T30 : 2 ^ 30 = 1073741824) by reflexivity.
  assert (HB : Z.abs (c * z) < BIG) by (unfold BIG; nia).
  pose proof (round_error (c * (z * U)) U 1051 HU ltac:(lia)) as R.
  rewrite <- BIG_eq in R.
  assert (Hlt : Z.abs (c * (z * U)) < U * BIG).
  { replace (c * (z * U)) with (U * (c * z)) by ring. rewrite Z.abs_mul.
    rewrite (Z.abs_eq U) by lia. apply Z.mul_lt_mono_pos_l; lia. }
  specialize (R Hlt).
  set (r := round_units (c * (z * U)) U) in *.
  assert (Er : 2 * Z.abs (r - c * z) <= 2 ^ 1051).
  { replace (U * r - c * (z * U)) with (U * (r - c * z)) in R by ring.
    rewrite Z.abs_mul, (Z.abs_eq U) in R by lia. nia. }
  assert (P : 2 ^ 1051 = 2 * 2 ^ 1050) by reflexivity.
  assert (Q : 2 ^ 20 * 2 ^ 1030 = 2 ^ 1050) by reflexivity.
  cbn [mul]. unfold round, of_units. fold r.
  destruct (Z.leb_spec HUGE (Z.abs r)); [lia|].
  exists r. split; [reflexivity|].
  assert (Z.abs (10 * (c * z) - cz * z * U) <= 2 ^ 1050).
  { replace (10 * (c * z) - cz * z * U) with (z * (10 * c - cz * U)) by ring.
    rewrite Z.abs_mul. rewrite <- Q.
    apply Z.mul_le_mono_nonneg; lia. }
  lia.
Qed.

(** ** The score against exact decimal arithmetic *)

Lemma c1_2_near :
  exists c, c1_2 = Fin c /\ Z.abs (10 * c - 12 * U) <= 2 ^ 1030 /\ 0 <= c <= 2 * U.
Proof.
  eexists. split; [vm_compute; reflexivity|].
  repeat split; vm_compute; discriminate.
Qed.

Lemma c0_2_near :
  exists c, c0_2 = Fin c /\ Z.abs (10 * c - 2 * U) <= 2 ^ 1030 /\ 0 <= c <= 2 * U.
Proof.
  eexists. split; [vm_compute; reflexivity|].
  repeat split; vm_compute; discriminate.
Qed.

Lemma rhe_near (a b k : Z) : 0 < b -> 2 * Z.abs (a - k * b) < b -> rhe a b = k.
Proof.
  intros Hb H. pose proof (rhe_error a b Hb) as E. nia.
Qed.

Lemma py_max_approx (e : Z) (s : float) (k c : Z) :
  approx e s k -> approx e (py_max s (Fin (c * U))) (Z.max k (10 * c)).
Proof.
  intros (n & -> & H). pose proof U_pos as HU.
  unfold py_max, gtb. cbn [ltb].
  destruct (Z.ltb_spec n (c * U)) as [L|L].
  - exists (c * U). split; [reflexivity|].
    destruct (Z.max_spec k (10 * c)) as [[? ->]|[? ->]]; nia.
  - exists n. split; [reflexivity|].
    destruct (Z.max_spec k (10 * c)) as [[? ->]|[? ->]]; nia.
Qed.

Lemma floors_approx (e : Z) (al : AlertFlags) (s : float) (k : Z) :
  approx e s k -> approx e (floors al s) (floor_tenths al k).
Proof.
  intros H. unfold floors, floor_tenths.
  rewrite c70_eq, c90_eq, c98_eq.
  destruct (has_watch al), (has_warning al), (has_pds al);
    repeat first [ exact H | apply (py_max_approx e _ _ 70)
                 | apply (py_max_approx e _ _ 90) | apply (py_max_approx e _ _ 98) ].
Qed.

Lemma clipZ_approx (e : Z) (s : float) (k : Z) :
  0 <= e -> approx e s k ->
  Z.abs (10 * clipZ s - Z.max 0 (Z.min 1000 k) * U) <= e.
Proof.
  intros He (n & -> & H). pose proof U_pos as HU. cbn [clipZ].
  destruct (Z.max_spec 0 (Z.min (100 * U) n)) as [[? ->]|[? ->]];
    destruct (Z.min_spec (100 * U) n) as [[? E]|[? E]]; rewrite E in *;
    destruct (Z.max_spec 0 (Z.min 1000 k)) as [[? ->]|[? ->]];
    destruct (Z.min_spec 1000 k) as [[? E']|[? E']]; rewrite E' in *; nia.
Qed.

Lemma raw_score_approx (w : Z) (p : option Z) (hs : HourlySummary) :
  0 <= w <= 80 ->
  match p with Some p => Z.abs p <= 2 ^ 20 | None => True end ->
  - 2 ^ 20 <= thunder_hours hs -> Z.abs (max_pop hs) <= 2 ^ 20 ->
  exists s, raw_score w p hs = OK s /\
            approx (7 * EPS) s
              (10 * w + match p with Some p => 12 * p | None => 0 end +
               20 * Z.min (thunder_hours hs) 10 +
               (if 35 <? max_gust_mph hs
                then 10 * Z.min (max_gust_mph hs - 35) 30 else 0) +
               2 * max_pop hs).
Proof.
  intros Hw Hp Ht Hpop.
  destruct EPS_facts as (E1 & E2 & E3 & E4). pose proof U_pos as HU.
  assert (T20 : 2 ^ 20 = 1048576) by reflexivity.
  assert (T30 : 2 ^ 30 = 1073741824) by reflexivity.
  assert (T53 : 2 ^ 53 = 9007199254740992) by reflexivity.
  destruct c1_2_near as (c12 & E12 & N12 & R12).
  destruct c0_2_near as (c02 & E02 & N02 & R02).
  unfold raw_score.
  rewrite (float_of_int_small w) by lia. cbn [bind].
  (* step 2 *)
  assert (S2 : exists s2,
    match p with
    | Some p0 => x <- float_of_int p0 ;; OK (add (Fin (w * U)) (mul c1_2 x))
    | None => OK (Fin (w * U))
    end = OK s2 /\
    approx (2 * EPS) s2 (10 * w + match p with Some p => 12 * p | None => 0 end)).
  { destruct p as [p|].
    - rewrite (float_of_int_small p) by lia. cbn [bind]. eexists. split; [reflexivity|].
      rewrite E12.
      assert (M : approx EPS (mul (Fin c12) (Fin (p * U))) (12 * p))
        by (apply (mul_approx (2 ^ 1030)); lia).
      apply (approx_weaken (0 + EPS + EPS)); [lia|].
      apply (add_approx _ _ _ _ _ _ (approx_int w ltac:(lia)) M); lia.
    - eexists. split; [reflexivity|].
      rewrite Z.add_0_r. apply (approx_weaken 0); [lia|]. apply approx_int; lia. }
  destruct S2 as (s2 & -> & A2). cbn [bind].
  set (k2 := 10 * w + match p with Some p => 12 * p | None => 0 end) in *.
  assert (B2 : Z.abs k2 <= 800 + 12 * 2 ^ 20) by (subst k2; destruct p; lia).
  (* step 3 *)
  set (t := Z.min (thunder_hours hs) 10) in *.
  assert (Bt : Z.abs t <= 2 ^ 20) by (subst t; lia).
  rewrite (float_of_int_small t) by lia. cbn [bind].
  assert (A3 : approx (4 * EPS) (add s2 (mul c2_0 (Fin (t * U)))) (k2 + 20 * t)).
  { assert (M : approx EPS (mul c2_0 (Fin (t * U))) (20 * t))
      by (rewrite c2_0_eq; apply (mul_approx 0); lia).
    apply (approx_weaken (2 * EPS + EPS + EPS)); [lia|].
    apply (add_approx _ _ _ _ _ _ A2 M); lia. }
  set (s3 := add s2 (mul c2_0 (Fin (t * U)))) in *.
  (* step 4 *)
  assert (S4 : exists s4,
    (if 35 <? max_gust_mph hs
     then g <- float_of_int (Z.min (max_gust_mph hs - 35) 30) ;; OK (add s3 g)
     else OK s3) = OK s4 /\
    approx (5 * EPS) s4
      (k2 + 20 * t +
       (if 35 <? max_gust_mph hs then 10 * Z.min (max_gust_mph hs - 35) 30 else 0))).
  { destruct (Z.ltb_spec 35 (max_gust_mph hs)) as [G|G].
    - rewrite float_of_int_small by lia. cbn [bind]. eexists. split; [reflexivity|].
      apply (approx_weaken (4 * EPS + 0 + EPS)); [lia|].
      apply (add_approx _ _ _ _ _ _ A3
               (approx_int (Z.min (max_gust_mph hs - 35) 30) ltac:(lia))); lia.
    - eexists. split; [reflexivity|].
      rewrite Z.add_0_r. apply (approx_weaken (4 * EPS)); [lia | exact A3]. }
  destruct S4 as (s4 & -> & A4). cbn [bind].
  set (g := if 35 <? max_gust_mph hs then 10 * Z.min (max_gust_mph hs - 35) 30 else 0) in *.
  assert (Bg : 0 <= g <= 300) by (subst g; destruct (Z.ltb_spec 35 (max_gust_mph hs)); lia).
  (* step 5 *)
  rewrite (float_of_int_small (max_pop hs)) by lia. cbn [bind].
  eexists. split; [reflexivity|].
  assert (M : approx EPS (mul c0_2 (Fin (max_pop hs * U))) (2 * max_pop hs))
    by (rewrite E02; apply (mul_approx (2 ^ 1030)); lia).
  apply (approx_weaken (5 * EPS + EPS + EPS)); [lia|].
  apply (add_approx _ _ _ _ _ _ A4 M); lia.
Qed.

(** For a tornado percentage, an hour count and a precipitation percentage
    of at most [2^20] in magnitude, and any gust, binary floating point
    does not show in the result: the score is the float of the decimal that
    exact arithmetic gives, floors and clipping included. *)
Theorem score_exact (c : option string) (p : option Z) (al : AlertFlags)
  (hs : HourlySummary) :
  match p with Some p => Z.abs p <= 2 ^ 20 | None => True end ->
  - 2 ^ 20 <= thunder_hours hs -> Z.abs (max_pop hs) <= 2 ^ 20 ->
  score_of (score_likelihood c p al hs) = OK (literal (score_tenths c p al hs) 10).
Proof.
  intros Hp Ht Hpop.
  destruct EPS_facts as (E1 & E2 & E3 & E4). pose proof U_pos as HU.
  rewrite score_of_unfold.
  assert (Hw : 0 <= dict_get CAT_WEIGHTS c 0 <= 80).
  { pose proof (weight_cases c) as H. cbn [In] in H. intuition lia. }
  destruct (raw_score_approx _ p hs Hw Hp Ht Hpop) as (s & -> & A).
  cbn [bind]. rewrite finish_eq.
  fold (exact_tenths c p hs) in A.
  apply (floors_approx _ al) in A.
  apply clipZ_approx in A; [|lia].
  fold (score_tenths c p al hs) in A.
  pose proof (clipZ_range (floors al s)) as R.
  pose proof (round1Z_range _ R) as R1.
  unfold round1Z in *.
  rewrite (rhe_near _ U (score_tenths c p al hs) HU) in * by lia.
  unfold literal, round, of_units.
  assert (B : 100 * U < HUGE) by reflexivity.
  destruct (Z.leb_spec HUGE (Z.abs (round_units (score_tenths c p al hs * U) 10)));
    [lia | reflexivity].
Qed.

Lemma score_exact_witness :
  score_of (score_likelihood (Some "ENH") (Some 10)
              {| has_watch := true; has_warning := false; has_pds := false |}
              {| thunder_hours := 3; max_pop := 60; max_gust_mph := 45 |}) =
  OK (literal (score_tenths (Some "ENH") (Some 10)
                 {| has_watch := true; has_warning := false; has_pds := false |}
                 {| thunder_hours := 3; max_pop := 60; max_gust_mph := 45 |}) 10).
Proof. apply score_exact; vm_compute; discriminate. Defined.

(** ** Agreement with the floats of the Standard Library

    On the numbers of the scoring, the operations of [Module Float] give
    the results of [SpecFloat]'s binary64 operations. *)

Example literals_agree :
  to_spec c1_2 = SpecFloat.S754_finite false 5404319552844595 (-52) /\
  to_spec c0_2 = SpecFloat.S754_finite false 7205759403792794 (-55) /\
  to_spec c100 = SpecFloat.S754_finite false 7036874417766400 (-46).
Proof. repeat split; vm_compute; reflexivity. Qed.

Example conversions_agree :
  forallb (fun z => same_float (to_spec (of_Z z))
                      (SpecFloat.binary_normalize 53 1024 z 0 false))
    (percentages ++ [2 ^ 53 + 1; 2 ^ 54 + 2; 10 ^ 22 + 1; - (10 ^ 30 + 7)])%list = true.
Proof. vm_compute. reflexivity. Qed.

Example products_agree :
  forallb (fun z => same_float (to_spec (mul c1_2 (of_Z z)))
                      (SpecFloat.SFmul 53 1024 (to_spec c1_2) (to_spec (of_Z z))) &&
                    same_float (to_spec (mul c0_2 (of_Z z)))
                      (SpecFloat.SFmul 53 1024 (to_spec c0_2) (to_spec (of_Z z))))
    percentages = true.
Proof. vm_compute. reflexivity. Qed.

Example sums_agree :
  forallb (fun z =>
             forallb (fun w =>
                        same_float
                          (to_spec (add (of_Z w) (mul c1_2 (of_Z z))))
                          (SpecFloat.SFadd 53 1024 (to_spec (of_Z w))
                             (to_spec (mul c1_2 (of_Z z)))))
               [25; 80])
    percentages = true.
Proof. vm_compute. reflexivity. Qed.

Example tenths_agree :
  forallb (fun k => same_float (to_spec (literal k 10))
                      (SpecFloat.SFdiv 53 1024 (to_spec (of_Z k)) (to_spec (of_Z 10))))
    [0; 1; 3; 7; 25; 333; 600; 601; 999; 1000] = true.
Proof. vm_compute. reflexivity. Qed.
